(** * gamepad-lock-inhibit: a shallow embedding in Rocq

    The Python program [gamepad-lock-inhibit.py] is modelled as follows.
    - Python exceptions are the inductive [py_exn]; a method that may raise
      is a function into [outcome S A]: either it returns a value [Ret s a]
      or it raises [Exc s e], in both cases with the state [s] reached so far
      (Python keeps mutations done before the raise).
    - The dictionaries [GamepadsWatcher.tasks] and [GamepadsWatcher.devices]
      are stdpp [gmap]s keyed by device path; asyncio tasks are numbered and
      kept in a task table [procs]; an evdev handle is numbered like the task
      that owns it.
    - [IdleLock] keeps its optional logind file descriptor [fd]; the file
      descriptors that logind handed to the process and that are still open
      are listed in [svc_open].
    - The asyncio event loop is a sequence of events: the Bridge loop wakes
      from its sleep or gets cancelled; a monitor task performs reads or
      receives its cancellation; a done callback runs; a udev notification
      calls [add_device] or [remove_device]. *)

From stdpp Require Import base gmap strings list fin_maps.

Inductive py_exn :=
| CancelledError
| OSError (errno : Z)
| KeyError
| AttributeError
| DBusException.

Inductive outcome (S A : Type) :=
| Ret (s : S) (a : A)
| Exc (s : S) (e : py_exn).
Arguments Ret {S A} s a.
Arguments Exc {S A} s e.

Definition post {S A} (o : outcome S A) : S :=
  match o with Ret s _ => s | Exc s _ => s end.

Inductive level := Info | Warning | Error.

(* ===================================================================== *)
(** ** IdleLock *)
(* ===================================================================== *)

Record idle_lock := mk_idle_lock {
  fd : option nat;        (* self.fd *)
  svc_open : list nat;    (* logind inhibitor fds the process holds open *)
  svc_next : nat          (* next fd number logind hands out *)
}.

(** [IdleLock.__init__]: no lock held. *)
Definition idle_lock_init : idle_lock := mk_idle_lock None [] 0.

(** [IdleLock.lock_idle]. [inhibit_ok] is the answer of the D-Bus call
    [Inhibit("shutdown:idle", ...)]: a new fd, or a [DBusException]. *)
Definition lock_idle (inhibit_ok : bool) (l : idle_lock) : outcome idle_lock unit :=
  match fd l with
  | Some _ => Ret l tt
  | None =>
      if inhibit_ok
      then Ret (mk_idle_lock (Some (svc_next l)) (svc_next l :: svc_open l)
                             (S (svc_next l))) tt
      else Exc l DBusException
  end.

(** [IdleLock.unlock_idle]: [os.close(self.fd.take()); self.fd = None]. *)
Definition unlock_idle (l : idle_lock) : outcome idle_lock unit :=
  match fd l with
  | None => Ret l tt
  | Some n =>
      Ret (mk_idle_lock None (remove Nat.eq_dec n (svc_open l)) (svc_next l)) tt
  end.

(** The fds the process holds are exactly the one stored in [fd]. *)
Definition lock_inv (l : idle_lock) : Prop :=
  svc_open l = option_list (fd l) /\
  (forall n, fd l = Some n -> n < svc_next l).

Definition locked (l : idle_lock) : bool :=
  match fd l with Some _ => true | None => false end.

(* ===================================================================== *)
(** ** The Activity-to-Lock Bridge: [inhibit_idle_when_gamepads_active] *)
(* ===================================================================== *)

(** The calls the Bridge makes to the lock; [CCancelled] marks the moment
    the [CancelledError] is caught. *)
Inductive call := CLock | CUnlock | CCancelled.

Record bridge := mk_bridge {
  gamepad_active : bool;   (* watcher.gamepad_active *)
  lock : idle_lock;        (* the local [lock = IdleLock()] *)
  calls : list call
}.

Definition bridge_init (active : bool) : bridge :=
  mk_bridge active idle_lock_init [].

(** [GamepadsWatcher.get_and_reset_active]. *)
Definition get_and_reset_active (b : bridge) : bridge * bool :=
  (mk_bridge false (lock b) (calls b), gamepad_active b).

Definition with_lock (b : bridge) (r : outcome idle_lock unit) (c : call)
  : outcome bridge unit :=
  match r with
  | Ret l _ => Ret (mk_bridge (gamepad_active b) l (calls b ++ [c])) tt
  | Exc l e => Exc (mk_bridge (gamepad_active b) l (calls b ++ [c])) e
  end.

(** One sampling tick: the body of the [while True] after the sleep. *)
Definition bridge_tick (inhibit_ok : bool) (b : bridge) : outcome bridge unit :=
  let '(b1, active) := get_and_reset_active b in
  if active then with_lock b1 (lock_idle inhibit_ok (lock b1)) CLock
  else with_lock b1 (unlock_idle (lock b1)) CUnlock.

(** What happens to the Bridge task while it sleeps: a monitor task sets
    the flag, the sleep ends (the tick then gets [inhibit_ok] from logind),
    or the task is cancelled at its [await asyncio.sleep]. *)
Inductive loop_ev := LInput | LWake (inhibit_ok : bool) | LCancel.

Inductive bridge_state :=
| Sleeping (b : bridge)                   (* still in the loop *)
| Terminated (b : bridge) (e : py_exn).   (* the coroutine raised [e] *)

(** [inhibit_idle_when_gamepads_active]: the loop inside
    [try ... except asyncio.CancelledError: lock.unlock_idle(); raise]. *)
Fixpoint inhibit_idle_when_gamepads_active (evs : list loop_ev) (b : bridge)
  : bridge_state :=
  match evs with
  | [] => Sleeping b
  | LInput :: r =>
      inhibit_idle_when_gamepads_active r (mk_bridge true (lock b) (calls b))
  | LWake ok :: r =>
      match bridge_tick ok b with
      | Ret b' _ => inhibit_idle_when_gamepads_active r b'
      | Exc b' e => Terminated b' e     (* only CancelledError is caught *)
      end
  | LCancel :: _ =>
      let b1 := mk_bridge (gamepad_active b) (lock b) (calls b ++ [CCancelled]) in
      match with_lock b1 (unlock_idle (lock b1)) CUnlock with
      | Ret b' _ => Terminated b' CancelledError   (* raise *)
      | Exc b' e => Terminated b' e
      end
  end.

(* ===================================================================== *)
(** ** The Activity Monitor Supervisor: [GamepadsWatcher] *)
(* ===================================================================== *)

(** Life cycle of an asyncio task running [monitor_gamepad_events]:
    running; cancellation requested by [task.cancel()]; coroutine finished
    (its done callback is scheduled); done callback has run. Whether the
    coroutine of a pending task has begun to run is kept apart, in the
    field [entered] of the watcher. *)
Inductive phase := Running | CancelReq | Finished | Reaped.

Record proc := mk_proc { ppath : string; pphase : phase }.

Record watcher := mk_watcher {
  w_active : bool;                      (* self.gamepad_active *)
  started : bool;                       (* self.started *)
  tasks : gmap string (option nat);     (* self.tasks, None is Python None *)
  devices : gmap string nat;            (* self.devices: open evdev handles *)
  procs : gmap nat proc;                (* the asyncio tasks created so far *)
  closed : list nat;                    (* evdev handles closed so far *)
  next_id : nat;                        (* id of the next task and handle *)
  logs : list level;
  entered : gset nat                    (* tasks whose coroutine has begun to
                                           run: no longer CORO_CREATED *)
}.

(** [GamepadsWatcher.__init__]. *)
Definition watcher_init : watcher :=
  mk_watcher false false ∅ ∅ ∅ [] 0 [] ∅.

Definition set_tasks (w : watcher) (m : gmap string (option nat)) : watcher :=
  mk_watcher (w_active w) (started w) m (devices w) (procs w) (closed w)
             (next_id w) (logs w) (entered w).
Definition set_devices (w : watcher) (m : gmap string nat) : watcher :=
  mk_watcher (w_active w) (started w) (tasks w) m (procs w) (closed w)
             (next_id w) (logs w) (entered w).
Definition set_procs (w : watcher) (m : gmap nat proc) : watcher :=
  mk_watcher (w_active w) (started w) (tasks w) (devices w) m (closed w)
             (next_id w) (logs w) (entered w).
Definition set_started (w : watcher) (b : bool) : watcher :=
  mk_watcher (w_active w) b (tasks w) (devices w) (procs w) (closed w)
             (next_id w) (logs w) (entered w).
Definition set_active (w : watcher) (b : bool) : watcher :=
  mk_watcher b (started w) (tasks w) (devices w) (procs w) (closed w)
             (next_id w) (logs w) (entered w).
Definition log (w : watcher) (lv : level) : watcher :=
  mk_watcher (w_active w) (started w) (tasks w) (devices w) (procs w)
             (closed w) (next_id w) (logs w ++ [lv]) (entered w).
Definition set_entered (w : watcher) (m : gset nat) : watcher :=
  mk_watcher (w_active w) (started w) (tasks w) (devices w) (procs w)
             (closed w) (next_id w) (logs w) m.
Definition close_handle (w : watcher) (h : nat) : watcher :=
  mk_watcher (w_active w) (started w) (tasks w) (devices w) (procs w)
             (closed w ++ [h]) (next_id w) (logs w) (entered w).

(** [GamepadsWatcher.set_init_devices]. *)
Fixpoint set_init_devices (ds : list string) (w : watcher) : watcher :=
  match ds with
  | [] => w
  | d :: r => set_init_devices r (set_tasks w (<[d := None]> (tasks w)))
  end.

(** [GamepadsWatcher.create_monitor_task] when [evdev.InputDevice(device)]
    opens the node: store the evdev handle, create the asyncio task (id
    [next_id]) and attach [finish_removing_device]. The failing open is
    [create_monitor_task_io] below. *)
Definition create_monitor_task (d : string) (w : watcher) : watcher :=
  let n := next_id w in
  mk_watcher (w_active w) (started w) (<[d := Some n]> (tasks w))
             (<[d := n]> (devices w)) (<[n := mk_proc d Running]> (procs w))
             (closed w) (S n) (logs w) (entered w).

(** [GamepadsWatcher.add_device]. *)
Definition add_device (d : string) (w : watcher) : outcome watcher unit :=
  let w := log w Info in
  match tasks w !! d with
  | Some (Some _) => Ret (log w Warning) tt        (* task is not None *)
  | _ =>
      if negb (started w) then Ret (set_tasks w (<[d := None]> (tasks w))) tt
      else Ret (create_monitor_task d w) tt
  end.

(** [create_monitor_task] with the outcome [op] of its first line
    [evdev.InputDevice(device)]: [None] when the node opens, [Some errno]
    when the open raises [OSError] (the node is gone after the udev
    notification, or access is denied); the raise comes before any
    assignment, so the state is left as it was. *)
Definition create_monitor_task_io (op : option Z) (d : string) (w : watcher)
  : outcome watcher unit :=
  match op with
  | None => Ret (create_monitor_task d w) tt
  | Some e => Exc w (OSError e)
  end.

(** [GamepadsWatcher.add_device] with the outcome [op] of the open;
    [add_device] above is the case where the open succeeds. *)
Definition add_device_io (op : option Z) (d : string) (w : watcher)
  : outcome watcher unit :=
  let w := log w Info in
  match tasks w !! d with
  | Some (Some _) => Ret (log w Warning) tt        (* task is not None *)
  | _ =>
      if negb (started w) then Ret (set_tasks w (<[d := None]> (tasks w))) tt
      else create_monitor_task_io op d w
  end.

(** [asyncio.Task.cancel]: a pending task gets a cancellation request;
    on a done task it does nothing. *)
Definition cancel_phase (ph : phase) : phase :=
  match ph with Running => CancelReq | ph => ph end.

Definition cancel (t : nat) (w : watcher) : watcher :=
  set_procs w (alter (fun pr => mk_proc (ppath pr) (cancel_phase (pphase pr)))
                     t (procs w)).

(** [GamepadsWatcher.remove_device]. *)
Definition remove_device (d : string) (w : watcher) : outcome watcher unit :=
  let w := log w Info in
  match tasks w !! d with
  | Some (Some t) =>
      let w := cancel t w in
      match devices w !! d with
      | Some h => Ret (set_devices (close_handle w h) (delete d (devices w))) tt
      | None => Exc w KeyError                  (* self.devices[device] *)
      end
  | _ =>
      (* try: del self.tasks[device] except KeyError: pass *)
      Ret (set_tasks w (delete d (tasks w))) tt
  end.

(** [GamepadsWatcher.finish_removing_device]: [del self.tasks[device]]. *)
Definition finish_removing_device (d : string) (w : watcher) : outcome watcher unit :=
  match tasks w !! d with
  | Some _ => Ret (set_tasks w (delete d (tasks w))) tt
  | None => Exc w KeyError
  end.

(** [GamepadsWatcher.start]: [create_monitor_task] for every key. *)
Fixpoint create_all (ds : list string) (w : watcher) : watcher :=
  match ds with
  | [] => w
  | d :: r => create_all r (create_monitor_task d (log w Info))
  end.

Definition start (w : watcher) : watcher :=
  let w := set_started w true in
  create_all (map_to_list (tasks w)).*1 w.

(** The first half of [GamepadsWatcher.stop], up to [asyncio.gather]:
    [task.cancel()] on every value of [self.tasks]; on Python [None] this
    raises [AttributeError]. Returns the tasks handed to [gather]. *)
Fixpoint cancel_all (ts : list (option nat)) (w : watcher)
  : outcome watcher (list nat) :=
  match ts with
  | [] => Ret w []
  | None :: _ => Exc w AttributeError
  | Some t :: r =>
      match cancel_all r (cancel t w) with
      | Ret w' ws => Ret w' (t :: ws)
      | Exc w' e => Exc w' e
      end
  end.

Definition stop (w : watcher) : outcome watcher (list nat) :=
  let w := set_started w false in
  cancel_all (map_to_list (tasks w)).*2 w.

(** [await asyncio.gather( *tasks)] completes once every task is done. *)
Definition task_done (w : watcher) (t : nat) : Prop :=
  match procs w !! t with
  | Some pr => pphase pr = Finished \/ pphase pr = Reaped
  | None => False
  end.

Definition gather_done (w : watcher) (ws : list nat) : Prop :=
  Forall (task_done w) ws.

Definition live (w : watcher) (t : nat) : Prop :=
  match procs w !! t with
  | Some pr => pphase pr = Running \/ pphase pr = CancelReq
  | None => False
  end.

(* --------------------------------------------------------------------- *)
(** *** [monitor_gamepad_events] *)
(* --------------------------------------------------------------------- *)

(** What one read of [device.async_read_loop()] produces. *)
Inductive read_result := RInput | RErr (errno : Z).

(** The [while True: async for _ in ...: self.gamepad_active = True] loop
    over the reads delivered so far: the flag afterwards, and the [OSError]
    that ended it, if any. *)
Fixpoint read_loop (rs : list read_result) (active : bool) : bool * option Z :=
  match rs with
  | [] => (active, None)
  | RInput :: r => read_loop r true
  | RErr e :: _ => (active, Some e)
  end.

(** How the coroutine ends when exception [e] reaches its [try]: either it
    returns normally after logging, or [e] escapes the task. *)
Inductive task_end := Returned (lv : level) | Raised (e : py_exn).

Definition monitor_except (e : py_exn) : task_end :=
  match e with
  | CancelledError => Returned Info                  (* "monitor ... exits" *)
  | OSError n => if Z.eqb n 19 then Returned Info    (* "disconnected" *)
                 else Returned Error                 (* "monitor failed" *)
  | e => Raised e
  end.

Definition task_end_log (w : watcher) (r : task_end) : watcher :=
  match r with Returned lv => log w lv | Raised _ => w end.

Definition set_phase (t : nat) (ph : phase) (w : watcher) : watcher :=
  set_procs w (alter (fun pr => mk_proc (ppath pr) ph) t (procs w)).

(** The code of [monitor_gamepad_events] before its [try]: on the first
    step of the coroutine of task [t], ["monitor for ... starts"] is
    logged; later steps resume inside the [try]. *)
Definition enter (t : nat) (w : watcher) : watcher :=
  mk_watcher (w_active w) (started w) (tasks w) (devices w) (procs w) (closed w)
             (next_id w) (if decide (t ∈ entered w) then logs w else logs w ++ [Info])
             ({[t]} ∪ entered w).

(** The task [t] is scheduled: a running task processes the reads [rs],
    its first step logging ["monitor for ... starts"] before the [try]; a
    task with a pending cancellation gets [CancelledError] at its read, or,
    if its coroutine has not begun, [CancelledError] is thrown into the
    unstarted coroutine: the body does not run, nothing is logged and the
    task ends cancelled (its done callback still runs). *)
Definition run_task (t : nat) (rs : list read_result) (w : watcher) : watcher :=
  match procs w !! t with
  | Some (mk_proc _ Running) =>
      let w := enter t w in
      match read_loop rs (w_active w) with
      | (a, None) => set_active w a
      | (a, Some e) =>
          set_phase t Finished
            (task_end_log (set_active w a) (monitor_except (OSError e)))
      end
  | Some (mk_proc _ CancelReq) =>
      set_phase t Finished
        (if decide (t ∈ entered w) then task_end_log w (monitor_except CancelledError)
         else w)
  | _ => w
  end.

(** The done callback [partial(self.finish_removing_device, device)] of a
    finished task; an exception in it is reported by the loop. *)
Definition run_callback (t : nat) (w : watcher) : outcome watcher unit :=
  match procs w !! t with
  | Some (mk_proc d Finished) => finish_removing_device d (set_phase t Reaped w)
  | _ => Ret w tt
  end.

(** Events of the event loop seen by the Supervisor. *)
Inductive sup_ev :=
| EAdd (d : string)                       (* udev add, via call_soon_threadsafe *)
| ERemove (d : string)                    (* udev remove *)
| ERun (t : nat) (rs : list read_result)  (* a monitor task is scheduled *)
| ECallback (t : nat).                    (* a done callback runs *)

Definition sup_step (e : sup_ev) (w : watcher) : outcome watcher unit :=
  match e with
  | EAdd d => add_device d w
  | ERemove d => remove_device d w
  | ERun t rs => Ret (run_task t rs w) tt
  | ECallback t => run_callback t w
  end.

Fixpoint sup_run (evs : list sup_ev) (w : watcher) : watcher :=
  match evs with
  | [] => w
  | e :: r => sup_run r (post (sup_step e w))
  end.

(** The states [main] can reach: [set_init_devices] on a fresh watcher,
    then loop events, with the one call of [watcher.start()] at a point
    where the watcher is not started. *)
Inductive reachable : watcher -> Prop :=
| reach_init ds : reachable (set_init_devices ds watcher_init)
| reach_step e w : reachable w -> reachable (post (sup_step e w))
| reach_start w : reachable w -> started w = false -> reachable (start w).

(* ===================================================================== *)
(** ** The Device Classifier/Watcher: [GamepadsFinder] *)
(* ===================================================================== *)

(** The fields of a [pyudev.Device] the finder reads. *)
Record udev_device := mk_udev_device {
  action : string;
  subsystem : string;
  properties : gmap string string;
  sys_name : string;
  device_node : option string       (* None when the device has no node *)
}.

Definition SUBSYSTEM : string := "input".
Definition SYS_NAME_PREFIX : string := "event".

(** [pyudev.Device.properties.asbool]: ['1'] and ['0'] are booleans, any
    other value raises [ValueError] ([None] here). *)
Definition asbool (v : string) : option bool :=
  if String.eqb v "1" then Some true
  else if String.eqb v "0" then Some false
  else None.

(** What one udev event makes [_on_new_event] do. *)
Inductive finder_action :=
| CallAdd (p : option string)      (* loop.call_soon_threadsafe(cb_add, p) *)
| CallRemove (p : option string)   (* loop.call_soon_threadsafe(cb_remove, p) *)
| Ignore                           (* return *)
| RaiseValueError.                 (* asbool raised *)

(** [GamepadsFinder._on_new_event]. *)
Definition on_new_event (dev : udev_device) : finder_action :=
  if negb (String.eqb (action dev) "add" || String.eqb (action dev) "remove")
  then Ignore
  else
    match properties dev !! "ID_INPUT_JOYSTICK" with
    | None => Ignore                               (* except KeyError *)
    | Some v =>
        match asbool v with
        | None => RaiseValueError
        | Some false => Ignore
        | Some true =>
            if negb (String.prefix SYS_NAME_PREFIX (sys_name dev)) then Ignore
            else if String.eqb (action dev) "add" then CallAdd (device_node dev)
            else CallRemove (device_node dev)
        end
    end.

(** The monitor is [filter_by(subsystem='input')]: events of other
    subsystems never reach the callback. *)
Definition monitor_deliver (dev : udev_device) : finder_action :=
  if String.eqb (subsystem dev) SUBSYSTEM then on_new_event dev else Ignore.

(** The match of [context.list_devices(subsystem='input',
    ID_INPUT_JOYSTICK=1, sys_name='event*')]. *)
Definition list_devices_match (dev : udev_device) : bool :=
  String.eqb (subsystem dev) SUBSYSTEM &&
  (match properties dev !! "ID_INPUT_JOYSTICK" with
   | Some v => String.eqb v "1"
   | None => false
   end) &&
  String.prefix SYS_NAME_PREFIX (sys_name dev).

(** [self.devices] of [GamepadsFinder.__init__]: the device nodes of the
    enumerated devices, in enumeration order. *)
Definition finder_devices (ds : list udev_device) : list (option string) :=
  map device_node (filter (fun d => list_devices_match d) ds).

(* ===================================================================== *)
(** ** [main] *)
(* ===================================================================== *)

(** The watcher after the start-up of [main]: [set_init_devices] with the
    finder's devices, then [watcher.start()]. *)
Definition main_startup (ds : list string) : watcher :=
  start (set_init_devices ds watcher_init).

(** What the sampler decides at the last [LWake] of a run: whether a
    monitor set the flag since the previous wake ([None]: no wake). *)
Fixpoint last_sample (evs : list loop_ev) (flag : bool) : option bool :=
  match evs with
  | [] => None
  | LInput :: r => last_sample r true
  | LWake _ :: r =>
      match last_sample r false with
      | None => Some flag
      | s => s
      end
  | LCancel :: _ => None
  end.

(* ===================================================================== *)
(** * Theorems *)
(* ===================================================================== *)

(* --------------------------------------------------------------------- *)
(** ** IdleLock *)
(* --------------------------------------------------------------------- *)

Lemma lock_idle_inv (ok : bool) (l : idle_lock) :
  lock_inv l -> lock_inv (post (lock_idle ok l)).
Proof.
  intros [Ho Hn]. unfold lock_idle.
  destruct (fd l) as [n|] eqn:Hf; simpl; [split; rewrite ?Hf; assumption|].
  destruct ok; simpl; [|split; rewrite ?Hf; assumption].
  split; simpl.
  - rewrite Ho. reflexivity.
  - intros m Hm. injection Hm as <-. lia.
Qed.

Lemma unlock_idle_inv (l : idle_lock) :
  lock_inv l -> lock_inv (post (unlock_idle l)).
Proof.
  intros [Ho Hn]. unfold unlock_idle.
  destruct (fd l) as [n|] eqn:Hf; simpl.
  - split; simpl; [|discriminate].
    rewrite Ho. simpl. destruct (Nat.eq_dec n n); [reflexivity|congruence].
  - split; rewrite ?Hf; assumption.
Qed.

Lemma unlock_idle_ret (l : idle_lock) :
  exists l', unlock_idle l = Ret l' tt /\ fd l' = None.
Proof.
  unfold unlock_idle. destruct (fd l) eqn:Hf.
  - eexists; split; reflexivity.
  - exists l; split; [reflexivity|exact Hf].
Qed.

Lemma lock_inv_at_most_one (l : idle_lock) :
  lock_inv l -> length (svc_open l) <= 1.
Proof. intros [Ho _]. rewrite Ho. destruct (fd l); simpl; lia. Qed.

(** C4: [lock_idle] while a handle is held and [unlock_idle] while none is
    held are no-ops; two [lock_idle] in a row leave exactly one held lock;
    two [unlock_idle] in a row leave none; and every call keeps the fds the
    process holds equal to the stored handle, so there is at most one. *)
Theorem lock_unlock_idempotent (l : idle_lock) :
  lock_inv l ->
  (forall ok, fd l <> None -> lock_idle ok l = Ret l tt) /\
  (fd l = None -> unlock_idle l = Ret l tt) /\
  (forall ok1 ok2 l1, lock_idle ok1 l = Ret l1 tt ->
     lock_idle ok2 l1 = Ret l1 tt /\ length (svc_open l1) = 1) /\
  (forall l1, unlock_idle l = Ret l1 tt ->
     unlock_idle l1 = Ret l1 tt /\ fd l1 = None /\ svc_open l1 = []) /\
  (forall ok, lock_inv (post (lock_idle ok l)) /\ lock_inv (post (unlock_idle l))) /\
  length (svc_open l) <= 1.
Proof.
  intros Hinv. split; [|split; [|split; [|split; [|split]]]].
  - intros ok Hf. unfold lock_idle. destruct (fd l); [reflexivity|congruence].
  - intros Hf. unfold unlock_idle. rewrite Hf. reflexivity.
  - intros ok1 ok2 l1 H.
    pose proof (lock_idle_inv ok1 l Hinv) as Hinv1. rewrite H in Hinv1.
    simpl in Hinv1. destruct Hinv1 as [Ho1 _].
    unfold lock_idle in H.
    destruct (fd l) as [n|] eqn:Hf.
    + injection H as <-. unfold lock_idle. rewrite Hf.
      split; [reflexivity|]. rewrite Ho1, Hf. reflexivity.
    + destruct ok1; [|discriminate]. injection H as <-.
      split; [reflexivity|]. destruct Hinv as [Ho _]. rewrite Hf in Ho.
      simpl. rewrite Ho. reflexivity.
  - intros l1 H.
    pose proof (unlock_idle_inv l Hinv) as Hinv1. rewrite H in Hinv1.
    simpl in Hinv1. destruct Hinv1 as [Ho1 _].
    destruct (unlock_idle_ret l) as [l' [Hr Hf']]. rewrite Hr in H.
    injection H as <-. unfold unlock_idle. rewrite Hf'.
    split; [reflexivity|split; [reflexivity|]]. rewrite Ho1, Hf'. reflexivity.
  - intros ok. split; [apply lock_idle_inv | apply unlock_idle_inv]; exact Hinv.
  - apply lock_inv_at_most_one. exact Hinv.
Qed.

Lemma lock_unlock_idempotent_witness :
  lock_inv idle_lock_init /\
  ((forall ok, fd idle_lock_init <> None -> lock_idle ok idle_lock_init = Ret idle_lock_init tt) /\
   (fd idle_lock_init = None -> unlock_idle idle_lock_init = Ret idle_lock_init tt) /\
   (forall ok1 ok2 l1, lock_idle ok1 idle_lock_init = Ret l1 tt ->
      lock_idle ok2 l1 = Ret l1 tt /\ length (svc_open l1) = 1) /\
   (forall l1, unlock_idle idle_lock_init = Ret l1 tt ->
      unlock_idle l1 = Ret l1 tt /\ fd l1 = None /\ svc_open l1 = []) /\
   (forall ok, lock_inv (post (lock_idle ok idle_lock_init)) /\
               lock_inv (post (unlock_idle idle_lock_init))) /\
   length (svc_open idle_lock_init) <= 1).
Proof.
  assert (H : lock_inv idle_lock_init).
  { split; [reflexivity | simpl; discriminate]. }
  split; [exact H | apply (lock_unlock_idempotent idle_lock_init H)].
Defined.

(* --------------------------------------------------------------------- *)
(** ** The Bridge *)
(* --------------------------------------------------------------------- *)

(** C1: a sampling tick reads the Activity Flag and resets it to false; it
    calls [lock_idle] if the flag was true and [unlock_idle] otherwise; when
    the tick completes, the lock is held exactly if the flag was true (the
    only other outcome is the failed Inhibit request of C5). *)
Theorem bridge_tick_follows_flag (ok : bool) (b : bridge) :
  let r := bridge_tick ok b in
  gamepad_active (post r) = false /\
  calls (post r) = calls b ++ [if gamepad_active b then CLock else CUnlock] /\
  match r with
  | Ret b' _ => locked (lock b') = gamepad_active b
  | Exc b' e => gamepad_active b = true /\ ok = false /\ e = DBusException /\
                locked (lock b') = false
  end.
Proof.
  unfold bridge_tick, get_and_reset_active. simpl.
  destruct (gamepad_active b) eqn:Ha; simpl.
  - unfold lock_idle. destruct (fd (lock b)) as [n|] eqn:Hf; simpl.
    + repeat split. unfold locked. rewrite Hf. reflexivity.
    + destruct ok; simpl; repeat split.
      unfold locked. rewrite Hf. reflexivity.
  - unfold unlock_idle. destruct (fd (lock b)) as [n|] eqn:Hf; simpl;
      repeat split. unfold locked. rewrite Hf. reflexivity.
Qed.

Lemma bridge_tick_inv (ok : bool) (b : bridge) :
  lock_inv (lock b) -> lock_inv (lock (post (bridge_tick ok b))).
Proof.
  intros H. unfold bridge_tick, get_and_reset_active. simpl.
  destruct (gamepad_active b); simpl.
  - pose proof (lock_idle_inv ok (lock b) H) as H1.
    destruct (lock_idle ok (lock b)); exact H1.
  - pose proof (unlock_idle_inv (lock b) H) as H1.
    destruct (unlock_idle (lock b)); exact H1.
Qed.

Lemma bridge_tick_calls (ok : bool) (b : bridge) :
  exists c, calls (post (bridge_tick ok b)) = calls b ++ [c] /\ c <> CCancelled.
Proof.
  unfold bridge_tick, get_and_reset_active. simpl.
  destruct (gamepad_active b); simpl.
  - exists CLock. destruct (lock_idle ok (lock b)); split; (reflexivity || discriminate).
  - exists CUnlock. destruct (unlock_idle (lock b)); split; (reflexivity || discriminate).
Qed.

Lemma bridge_tick_exc (ok : bool) (b : bridge) (b' : bridge) (e : py_exn) :
  bridge_tick ok b = Exc b' e -> e = DBusException.
Proof.
  pose proof (bridge_tick_follows_flag ok b) as [_ [_ H]].
  intros Heq. rewrite Heq in H. destruct H as [_ [_ [He _]]]. exact He.
Qed.

Lemma bridge_cancel_general (evs : list loop_ev) (b b' : bridge) :
  lock_inv (lock b) -> CCancelled ∉ calls b ->
  inhibit_idle_when_gamepads_active evs b = Terminated b' CancelledError ->
  (exists pre, calls b' = pre ++ [CCancelled; CUnlock] /\ CCancelled ∉ pre) /\
  fd (lock b') = None /\ svc_open (lock b') = [].
Proof.
  revert b. induction evs as [|ev r IH]; intros b Hinv Hnc Hrun; simpl in Hrun.
  - discriminate.
  - destruct ev as [|ok|].
    + exact (IH (mk_bridge true (lock b) (calls b)) Hinv Hnc Hrun).
    + destruct (bridge_tick ok b) as [b1 u|b1 e] eqn:Ht.
      * apply (IH b1).
        -- pose proof (bridge_tick_inv ok b Hinv) as H1. rewrite Ht in H1. exact H1.
        -- destruct (bridge_tick_calls ok b) as [c [Hc Hcc]]. rewrite Ht in Hc.
           simpl in Hc. rewrite Hc. rewrite elem_of_app, list_elem_of_singleton.
           intros [?|?]; [contradiction|congruence].
        -- exact Hrun.
      * injection Hrun as <- He. subst e.
        apply bridge_tick_exc in Ht. discriminate.
    + destruct (unlock_idle_ret (lock b)) as [l' [Hr Hf']].
      pose proof (unlock_idle_inv (lock b) Hinv) as Hinv'. rewrite Hr in Hinv'.
      simpl in Hrun. rewrite Hr in Hrun. simpl in Hrun.
      injection Hrun as <-. simpl.
      split; [|split; [exact Hf'|]].
      * exists (calls b). split; [|exact Hnc]. rewrite <- app_assoc. reflexivity.
      * destruct Hinv' as [Ho _]. simpl in Ho. rewrite Ho, Hf'. reflexivity.
Qed.

(** C2: when the Bridge coroutine started on a fresh [IdleLock] ends by
    cancellation, the last lock call it made after catching the
    cancellation is exactly one [unlock_idle] and it holds no inhibitor fd
    when it terminates. *)
Theorem bridge_cancel_final_unlock (evs : list loop_ev) (active : bool) (b' : bridge) :
  inhibit_idle_when_gamepads_active evs (bridge_init active) = Terminated b' CancelledError ->
  (exists pre, calls b' = pre ++ [CCancelled; CUnlock] /\ CCancelled ∉ pre) /\
  fd (lock b') = None /\ svc_open (lock b') = [].
Proof.
  apply bridge_cancel_general.
  - split; [reflexivity | simpl; discriminate].
  - simpl. apply not_elem_of_nil.
Qed.

Lemma bridge_cancel_final_unlock_witness :
  exists b',
    inhibit_idle_when_gamepads_active [LInput; LWake true; LCancel] (bridge_init false)
      = Terminated b' CancelledError /\
    (exists pre, calls b' = pre ++ [CCancelled; CUnlock] /\ CCancelled ∉ pre) /\
    fd (lock b') = None /\ svc_open (lock b') = [].
Proof.
  eexists. split; [reflexivity|].
  apply (bridge_cancel_final_unlock [LInput; LWake true; LCancel] false). reflexivity.
Defined.

(** C5, counterexample: the Inhibit request of the first tick fails; the
    error escapes the loop and the Bridge terminates, so the second tick,
    whose request would succeed, never runs. *)
Lemma bridge_inhibit_failure_stops_loop :
  inhibit_idle_when_gamepads_active [LInput; LWake false; LInput; LWake true]
    (bridge_init false)
  = Terminated (mk_bridge false idle_lock_init [CLock]) DBusException.
Proof. reflexivity. Qed.

(** C5, amended: if the Inhibit request fails in a tick that samples
    activity while no handle is held, [lock_idle] raises with the handle
    left unset, the error is not caught by the Bridge loop (which catches
    only cancellation) and the Bridge terminates with it: none of the later
    events is processed, so no later tick retries. *)
Theorem bridge_inhibit_failure_terminates (b : bridge) (r : list loop_ev) :
  gamepad_active b = true -> fd (lock b) = None ->
  inhibit_idle_when_gamepads_active (LWake false :: r) b
  = Terminated (mk_bridge false (lock b) (calls b ++ [CLock])) DBusException /\
  locked (lock b) = false.
Proof.
  intros Ha Hf. simpl. unfold bridge_tick, get_and_reset_active. simpl.
  rewrite Ha. unfold lock_idle. simpl. rewrite Hf. simpl.
  split; [reflexivity|]. unfold locked. rewrite Hf. reflexivity.
Qed.

Lemma bridge_inhibit_failure_terminates_witness :
  inhibit_idle_when_gamepads_active [LWake false; LWake true] (bridge_init true)
  = Terminated (mk_bridge false idle_lock_init [CLock]) DBusException /\
  locked idle_lock_init = false.
Proof.
  apply (bridge_inhibit_failure_terminates (bridge_init true) [LWake true]);
    reflexivity.
Defined.

(* --------------------------------------------------------------------- *)
(** ** The Supervisor invariant *)
(* --------------------------------------------------------------------- *)

(** Every task whose done callback has not run is the value of its path's
    entry in [tasks]; every entry holding a task points at such a task;
    task ids below [next_id] only. *)
Definition core_inv (tk : gmap string (option nat)) (pc : gmap nat proc) (nx : nat)
  : Prop :=
  (forall t pr, pc !! t = Some pr -> pphase pr <> Reaped ->
     tk !! ppath pr = Some (Some t)) /\
  (forall d t, tk !! d = Some (Some t) ->
     exists pr, pc !! t = Some pr /\ ppath pr = d /\ pphase pr <> Reaped) /\
  (forall t, nx <= t -> pc !! t = None).

(** Before [start] every entry is [None]; after it no entry is [None]. *)
Definition flag_inv (st : bool) (tk : gmap string (option nat)) : Prop :=
  (st = false -> forall d o, tk !! d = Some o -> o = None) /\
  (st = true -> forall d, tk !! d <> Some None).

Definition sup_inv (w : watcher) : Prop :=
  core_inv (tasks w) (procs w) (next_id w) /\ flag_inv (started w) (tasks w).

Definition no_task_at (tk : gmap string (option nat)) (d : string) : Prop :=
  forall t, tk !! d <> Some (Some t).

Lemma core_insert_new (d : string) tk pc nx :
  core_inv tk pc nx -> no_task_at tk d ->
  core_inv (<[d := Some nx]> tk) (<[nx := mk_proc d Running]> pc) (S nx).
Proof.
  intros [I1 [I2 I3]] Hd. split; [|split].
  - intros t pr Ht Hr. destruct (decide (t = nx)) as [Heq|Hne].
    + subst t. rewrite lookup_insert_eq in Ht. injection Ht as <-. simpl.
      apply lookup_insert_eq.
    + rewrite lookup_insert_ne in Ht; [|congruence].
      pose proof (I1 t pr Ht Hr) as H.
      destruct (decide (ppath pr = d)) as [Hp|Hp].
      * exfalso. apply (Hd t). rewrite <- Hp. exact H.
      * rewrite lookup_insert_ne; [exact H|congruence].
  - intros d' t Ht. destruct (decide (d' = d)) as [->|Hne].
    + rewrite lookup_insert_eq in Ht. injection Ht as <-.
      exists (mk_proc d Running). rewrite lookup_insert_eq.
      split; [reflexivity|split; [reflexivity|discriminate]].
    + rewrite lookup_insert_ne in Ht; [|congruence].
      destruct (I2 d' t Ht) as [pr [Hpr Hrest]].
      exists pr. split; [|exact Hrest].
      rewrite lookup_insert_ne; [exact Hpr|].
      intros Heq. subst t. rewrite (I3 nx (le_n nx)) in Hpr. discriminate.
  - intros t Ht. rewrite lookup_insert_ne; [apply I3; lia|lia].
Qed.

Lemma core_insert_none (d : string) tk pc nx :
  core_inv tk pc nx -> no_task_at tk d -> core_inv (<[d := None]> tk) pc nx.
Proof.
  intros [I1 [I2 I3]] Hd. split; [|split; [|exact I3]].
  - intros t pr Ht Hr. pose proof (I1 t pr Ht Hr) as H.
    destruct (decide (ppath pr = d)) as [Hp|Hp].
    + exfalso. apply (Hd t). rewrite <- Hp. exact H.
    + rewrite lookup_insert_ne; [exact H|congruence].
  - intros d' t Ht. destruct (decide (d' = d)) as [->|Hne].
    + rewrite lookup_insert_eq in Ht. discriminate.
    + rewrite lookup_insert_ne in Ht; [|congruence]. exact (I2 d' t Ht).
Qed.

Lemma core_delete_free (d : string) tk pc nx :
  core_inv tk pc nx -> no_task_at tk d -> core_inv (delete d tk) pc nx.
Proof.
  intros [I1 [I2 I3]] Hd. split; [|split; [|exact I3]].
  - intros t pr Ht Hr. pose proof (I1 t pr Ht Hr) as H.
    destruct (decide (ppath pr = d)) as [Hp|Hp].
    + exfalso. apply (Hd t). rewrite <- Hp. exact H.
    + rewrite lookup_delete_ne; [exact H|congruence].
  - intros d' t Ht. destruct (decide (d' = d)) as [->|Hne].
    + rewrite lookup_delete_eq in Ht. discriminate.
    + rewrite lookup_delete_ne in Ht; [|congruence]. exact (I2 d' t Ht).
Qed.

(** Changing the phase of a task without reaping it or reviving it. *)
Lemma core_alter_phase (f : phase -> phase) (t0 : nat) tk pc nx :
  (forall pr, pc !! t0 = Some pr -> (f (pphase pr) = Reaped <-> pphase pr = Reaped)) ->
  core_inv tk pc nx ->
  core_inv tk (alter (fun pr => mk_proc (ppath pr) (f (pphase pr))) t0 pc) nx.
Proof.
  intros Hf [I1 [I2 I3]]. split; [|split].
  - intros t pr Ht Hr. rewrite lookup_alter in Ht.
    destruct (decide (t0 = t)) as [Heq|Hne].
    + subst t0. destruct (pc !! t) as [pr0|] eqn:E; simpl in Ht; [|discriminate].
      injection Ht as <-. simpl in Hr |- *.
      apply (I1 t pr0 E). intros H. apply Hr. apply (Hf pr0 eq_refl). exact H.
    + exact (I1 t pr Ht Hr).
  - intros d t Ht. destruct (I2 d t Ht) as [pr [Hpr [Hp Hr]]].
    rewrite lookup_alter. destruct (decide (t0 = t)) as [Heq|Hne].
    + subst t0. rewrite Hpr. simpl. eexists. split; [reflexivity|].
      simpl. split; [exact Hp|]. intros H. apply Hr. apply (Hf pr Hpr). exact H.
    + exists pr. split; [exact Hpr|split; assumption].
  - intros t Ht. rewrite lookup_alter.
    destruct (decide (t0 = t)) as [Heq|]; [subst t0|]; rewrite (I3 t Ht); reflexivity.
Qed.

(** The done callback of a finished task reaps it and drops its entry. *)
Lemma core_reap (t0 : nat) (d : string) tk pc nx :
  pc !! t0 = Some (mk_proc d Finished) -> core_inv tk pc nx ->
  core_inv (delete d tk) (alter (fun pr => mk_proc (ppath pr) Reaped) t0 pc) nx.
Proof.
  intros H0 [I1 [I2 I3]].
  assert (Hd : tk !! d = Some (Some t0)).
  { apply (I1 t0 _ H0). discriminate. }
  split; [|split].
  - intros t pr Ht Hr. rewrite lookup_alter in Ht.
    destruct (decide (t0 = t)) as [->|Hne].
    + rewrite H0 in Ht. simpl in Ht. injection Ht as <-. simpl in Hr. congruence.
    + pose proof (I1 t pr Ht Hr) as H.
      destruct (decide (ppath pr = d)) as [Hp|Hp].
      * rewrite Hp in H. rewrite Hd in H. congruence.
      * rewrite lookup_delete_ne; [exact H|congruence].
  - intros d' t Ht. destruct (decide (d' = d)) as [->|Hne].
    + rewrite lookup_delete_eq in Ht. discriminate.
    + rewrite lookup_delete_ne in Ht; [|congruence].
      destruct (I2 d' t Ht) as [pr [Hpr [Hp Hr]]].
      exists pr. rewrite lookup_alter.
      destruct (decide (t0 = t)) as [->|Hne'].
      * rewrite H0 in Hpr. injection Hpr as <-. simpl in Hp. congruence.
      * split; [exact Hpr|split; assumption].
  - intros t Ht. rewrite lookup_alter.
    destruct (decide (t0 = t)) as [Heq|]; [subst t0|]; rewrite (I3 t Ht); reflexivity.
Qed.

Lemma flag_insert_none (d : string) tk :
  flag_inv false tk -> flag_inv false (<[d := None]> tk).
Proof.
  intros [J _]. split; [|discriminate].
  intros _ d' o H. destruct (decide (d' = d)) as [Heq|Hne].
  - subst d'. rewrite lookup_insert_eq in H. congruence.
  - rewrite lookup_insert_ne in H; [|congruence]. exact (J eq_refl d' o H).
Qed.

Lemma flag_delete (st : bool) (d : string) tk :
  flag_inv st tk -> flag_inv st (delete d tk).
Proof.
  intros [J K]. split.
  - intros Hs d' o H. destruct (decide (d' = d)) as [Heq|Hne].
    + subst d'. rewrite lookup_delete_eq in H. discriminate.
    + rewrite lookup_delete_ne in H; [|congruence]. exact (J Hs d' o H).
  - intros Hs d'. destruct (decide (d' = d)) as [Heq|Hne].
    + subst d'. rewrite lookup_delete_eq. discriminate.
    + rewrite lookup_delete_ne; [|congruence]. exact (K Hs d').
Qed.

Lemma flag_insert_task (d : string) (n : nat) tk :
  flag_inv true tk -> flag_inv true (<[d := Some n]> tk).
Proof.
  intros [_ K]. split; [discriminate|].
  intros _ d'. destruct (decide (d' = d)) as [Heq|Hne].
  - subst d'. rewrite lookup_insert_eq. discriminate.
  - rewrite lookup_insert_ne; [|congruence]. exact (K eq_refl d').
Qed.

Lemma no_task_at_of (tk : gmap string (option nat)) (d : string) :
  (tk !! d = None \/ tk !! d = Some None) -> no_task_at tk d.
Proof. intros [H|H] t; rewrite H; discriminate. Qed.

Lemma add_device_inv (d : string) (w : watcher) :
  sup_inv w -> sup_inv (post (add_device d w)).
Proof.
  intros [C F]. unfold add_device. simpl.
  destruct (tasks w !! d) as [[t|]|] eqn:E;
    [split; assumption| |];
    (destruct (started w) eqn:Hs; simpl; unfold sup_inv; simpl;
     [ split; [apply core_insert_new; [exact C|apply no_task_at_of; auto]
              |rewrite ?Hs; apply flag_insert_task; rewrite ?Hs in F; exact F]
     | split; [apply core_insert_none; [exact C|apply no_task_at_of; auto]
              |rewrite ?Hs; apply flag_insert_none; rewrite ?Hs in F; exact F]]).
Qed.

Lemma cancel_inv (t : nat) (w : watcher) :
  sup_inv w -> sup_inv (cancel t w).
Proof.
  intros [C F]. split; [|exact F]. simpl.
  apply (core_alter_phase cancel_phase); [|exact C].
  intros pr _. destruct (pphase pr); simpl; split; congruence.
Qed.

Lemma remove_device_inv (d : string) (w : watcher) :
  sup_inv w -> sup_inv (post (remove_device d w)).
Proof.
  intros Hinv. unfold remove_device. simpl.
  destruct (tasks w !! d) as [[t|]|] eqn:E.
  - pose proof (cancel_inv t (log w Info)) as Hc.
    assert (Hl : sup_inv (log w Info)) by exact Hinv.
    specialize (Hc Hl).
    destruct (devices w !! d); simpl; exact Hc.
  - destruct Hinv as [C F]. split; simpl.
    + apply core_delete_free; [exact C|apply no_task_at_of; auto].
    + apply flag_delete. exact F.
  - destruct Hinv as [C F]. split; simpl.
    + apply core_delete_free; [exact C|apply no_task_at_of; auto].
    + apply flag_delete. exact F.
Qed.

Lemma set_phase_finished_inv (t : nat) (w : watcher) (pr : proc) :
  procs w !! t = Some pr -> pphase pr <> Reaped ->
  sup_inv w -> sup_inv (set_phase t Finished w).
Proof.
  intros Ht Hr [C F]. split; [|exact F]. simpl.
  apply (core_alter_phase (fun _ => Finished)); [|exact C].
  intros pr' Hpr'. rewrite Ht in Hpr'. injection Hpr' as <-.
  split; [discriminate|intros H; contradiction].
Qed.

Lemma run_task_inv (t : nat) (rs : list read_result) (w : watcher) :
  sup_inv w -> sup_inv (run_task t rs w).
Proof.
  intros Hinv. unfold run_task.
  destruct (procs w !! t) as [[d ph]|] eqn:Ht; [|exact Hinv].
  destruct ph; try exact Hinv.
  - change (w_active (enter t w)) with (w_active w).
    destruct (read_loop rs (w_active w)) as [a [e|]].
    + apply (set_phase_finished_inv t _ (mk_proc d Running));
        [|discriminate|].
      * destruct (monitor_except (OSError e)); exact Ht.
      * destruct (monitor_except (OSError e)); exact Hinv.
    + exact Hinv.
  - apply (set_phase_finished_inv t _ (mk_proc d CancelReq));
      destruct (decide (t ∈ entered w)); first [exact Ht|discriminate|exact Hinv].
Qed.

Lemma run_callback_inv (t : nat) (w : watcher) :
  sup_inv w -> sup_inv (post (run_callback t w)).
Proof.
  intros [C F]. unfold run_callback.
  destruct (procs w !! t) as [[d ph]|] eqn:Ht; [|split; assumption].
  destruct ph; try (split; assumption).
  assert (Hd : tasks w !! d = Some (Some t)).
  { destruct C as [I1 _]. apply (I1 t _ Ht). discriminate. }
  unfold finish_removing_device. simpl. rewrite Hd. simpl. split; simpl.
  - apply (core_reap t d); assumption.
  - apply flag_delete. exact F.
Qed.

Lemma sup_step_inv (e : sup_ev) (w : watcher) :
  sup_inv w -> sup_inv (post (sup_step e w)).
Proof.
  destruct e; simpl.
  - apply add_device_inv.
  - apply remove_device_inv.
  - apply run_task_inv.
  - apply run_callback_inv.
Qed.

Lemma set_init_devices_inv (ds : list string) (w : watcher) :
  sup_inv w -> started w = false ->
  sup_inv (set_init_devices ds w) /\ started (set_init_devices ds w) = false.
Proof.
  revert w. induction ds as [|d r IH]; intros w [C F] Hs; simpl.
  - split; [split; assumption|exact Hs].
  - apply IH; [|exact Hs]. split; simpl.
    + apply core_insert_none; [exact C|]. intros t H.
      destruct F as [J _]. specialize (J Hs d (Some t) H). discriminate.
    + rewrite Hs. apply flag_insert_none. rewrite Hs in F. exact F.
Qed.

Lemma create_all_inv (ds : list string) (w : watcher) :
  NoDup ds -> started w = true ->
  core_inv (tasks w) (procs w) (next_id w) ->
  (forall d, d ∈ ds -> tasks w !! d = Some None) ->
  (forall d, tasks w !! d = Some None -> d ∈ ds) ->
  sup_inv (create_all ds w).
Proof.
  revert w. induction ds as [|d r IH]; intros w Hnd Hs C Hin Hout; simpl.
  - split; [exact C|]. split; [congruence|].
    intros _ d Hd. apply (not_elem_of_nil d). apply Hout. exact Hd.
  - apply NoDup_cons in Hnd as [Hdr Hnd].
    assert (Hd : tasks w !! d = Some None) by (apply Hin; left).
    apply IH; simpl.
    + exact Hnd.
    + exact Hs.
    + apply core_insert_new; [exact C|apply no_task_at_of; auto].
    + intros d' Hd'. rewrite lookup_insert_ne.
      * apply Hin. right. exact Hd'.
      * intros Heq. subst d'. contradiction.
    + intros d' Hd'. destruct (decide (d' = d)) as [Heq|Hne].
      * subst d'. rewrite lookup_insert_eq in Hd'. discriminate.
      * rewrite lookup_insert_ne in Hd'; [|congruence].
        apply Hout in Hd'. apply elem_of_cons in Hd' as [?|?]; [congruence|assumption].
Qed.

Lemma start_inv (w : watcher) :
  sup_inv w -> started w = false -> sup_inv (start w).
Proof.
  intros [C F] Hs. unfold start. apply create_all_inv; simpl.
  - apply NoDup_fst_map_to_list.
  - reflexivity.
  - exact C.
  - intros d Hd. apply list_elem_of_fmap in Hd as [[d' o] [Heq Ho]].
    simpl in Heq. subst d'. apply elem_of_map_to_list in Ho.
    destruct F as [J _]. rewrite (J Hs d o Ho) in Ho. exact Ho.
  - intros d Hd. apply list_elem_of_fmap. exists (d, None). split; [reflexivity|].
    apply elem_of_map_to_list. exact Hd.
Qed.

Lemma watcher_init_inv : sup_inv watcher_init.
Proof.
  split; [split; [|split]|split]; simpl.
  - intros t pr H. rewrite lookup_empty in H. discriminate.
  - intros d t H. rewrite lookup_empty in H. discriminate.
  - intros t _. apply lookup_empty.
  - intros _ d o H. rewrite lookup_empty in H. discriminate.
  - discriminate.
Qed.

Lemma reachable_inv (w : watcher) : reachable w -> sup_inv w.
Proof.
  induction 1 as [ds|e w _ IH|w _ IH Hs].
  - apply set_init_devices_inv; [apply watcher_init_inv|reflexivity].
  - apply sup_step_inv. exact IH.
  - apply start_inv; assumption.
Qed.

Definition event3 : string := "/dev/input/event3".

(* --------------------------------------------------------------------- *)
(** ** C3: one task per device path *)
(* --------------------------------------------------------------------- *)

(** C3: in every state [main] can reach, two tasks whose done callback has
    not run (in particular two running tasks) never share a device path,
    and [add_device] on a path whose entry holds a task creates no task. *)
Theorem supervisor_one_task_per_path (w : watcher) :
  reachable w ->
  (forall t1 t2 pr1 pr2, procs w !! t1 = Some pr1 -> procs w !! t2 = Some pr2 ->
     pphase pr1 <> Reaped -> pphase pr2 <> Reaped ->
     ppath pr1 = ppath pr2 -> t1 = t2) /\
  (forall d t, tasks w !! d = Some (Some t) ->
     procs (post (add_device d w)) = procs w /\
     next_id (post (add_device d w)) = next_id w).
Proof.
  intros Hr. destruct (reachable_inv w Hr) as [[I1 _] _]. split.
  - intros t1 t2 pr1 pr2 H1 H2 R1 R2 Hp.
    pose proof (I1 t1 pr1 H1 R1) as E1. pose proof (I1 t2 pr2 H2 R2) as E2.
    rewrite Hp in E1. rewrite E1 in E2. congruence.
  - intros d t Ht. unfold add_device. simpl. rewrite Ht. simpl.
    split; reflexivity.
Qed.

Lemma supervisor_one_task_per_path_witness :
  reachable (start (set_init_devices [event3] watcher_init)) /\
  ((forall t1 t2 pr1 pr2,
      procs (start (set_init_devices [event3] watcher_init)) !! t1 = Some pr1 ->
      procs (start (set_init_devices [event3] watcher_init)) !! t2 = Some pr2 ->
      pphase pr1 <> Reaped -> pphase pr2 <> Reaped ->
      ppath pr1 = ppath pr2 -> t1 = t2) /\
   (forall d t, tasks (start (set_init_devices [event3] watcher_init)) !! d = Some (Some t) ->
      procs (post (add_device d (start (set_init_devices [event3] watcher_init))))
        = procs (start (set_init_devices [event3] watcher_init)) /\
      next_id (post (add_device d (start (set_init_devices [event3] watcher_init))))
        = next_id (start (set_init_devices [event3] watcher_init)))).
Proof.
  assert (H : reachable (start (set_init_devices [event3] watcher_init))).
  { apply reach_start; [apply reach_init|reflexivity]. }
  split; [exact H|apply (supervisor_one_task_per_path _ H)].
Defined.

(* --------------------------------------------------------------------- *)
(** ** C6: how a monitor task ends *)
(* --------------------------------------------------------------------- *)

(** C6: a running task whose read fails with [OSError] ends normally with
    an info log for errno 19 and an error log otherwise (after the
    ["starts"] info log if this is its first step); a task with a pending
    cancellation ends: if its coroutine had begun, it returns normally with
    an info log, and if it had not, it ends cancelled without running its
    body or logging anything; and, in every state [main] can reach, the
    done callback of a finished task (whatever ended it) finds its path's
    entry and removes it. *)
Theorem monitor_task_end (w : watcher) :
  reachable w ->
  (forall t d rs a e, procs w !! t = Some (mk_proc d Running) ->
     read_loop rs (w_active w) = (a, Some e) ->
     procs (run_task t rs w) !! t = Some (mk_proc d Finished) /\
     logs (run_task t rs w) =
       logs w ++ (if decide (t ∈ entered w) then [] else [Info]) ++
       [if Z.eqb e 19 then Info else Error] /\
     monitor_except (OSError e) <> Raised (OSError e)) /\
  (forall t d rs, procs w !! t = Some (mk_proc d CancelReq) ->
     procs (run_task t rs w) !! t = Some (mk_proc d Finished) /\
     (t ∈ entered w -> logs (run_task t rs w) = logs w ++ [Info] /\
                       monitor_except CancelledError = Returned Info) /\
     (t ∉ entered w -> logs (run_task t rs w) = logs w)) /\
  (forall t d, procs w !! t = Some (mk_proc d Finished) ->
     tasks w !! d = Some (Some t) /\
     exists w', run_callback t w = Ret w' tt /\ tasks w' !! d = None).
Proof.
  intros Hr. destruct (reachable_inv w Hr) as [[I1 _] _].
  split; [|split].
  - intros t d rs a e Ht Hl. unfold run_task. rewrite Ht.
    change (w_active (enter t w)) with (w_active w). rewrite Hl.
    unfold monitor_except. destruct (Z.eqb e 19); simpl;
      rewrite lookup_alter_eq, Ht; (split; [reflexivity|split; [|discriminate]]);
      destruct (decide (t ∈ entered w)); simpl;
      first [reflexivity|rewrite <- app_assoc; reflexivity].
  - intros t d rs Ht. unfold run_task. rewrite Ht.
    destruct (decide (t ∈ entered w)) as [Hin|Hout]; simpl;
      rewrite lookup_alter_eq, Ht; (split; [reflexivity|split]);
      intros H; first [split; reflexivity|reflexivity|contradiction].
  - intros t d Ht.
    assert (Hd : tasks w !! d = Some (Some t)) by (apply (I1 t _ Ht); discriminate).
    split; [exact Hd|]. unfold run_callback, finish_removing_device.
    rewrite Ht. simpl. rewrite Hd. eexists. split; [reflexivity|].
    simpl. apply lookup_delete_eq.
Qed.

Lemma monitor_task_end_witness :
  let w := post (remove_device event3 (start (set_init_devices [event3] watcher_init))) in
  reachable w /\
  ((forall t d rs a e, procs w !! t = Some (mk_proc d Running) ->
      read_loop rs (w_active w) = (a, Some e) ->
      procs (run_task t rs w) !! t = Some (mk_proc d Finished) /\
      logs (run_task t rs w) =
        logs w ++ (if decide (t ∈ entered w) then [] else [Info]) ++
        [if Z.eqb e 19 then Info else Error] /\
      monitor_except (OSError e) <> Raised (OSError e)) /\
   (forall t d rs, procs w !! t = Some (mk_proc d CancelReq) ->
      procs (run_task t rs w) !! t = Some (mk_proc d Finished) /\
      (t ∈ entered w -> logs (run_task t rs w) = logs w ++ [Info] /\
                        monitor_except CancelledError = Returned Info) /\
      (t ∉ entered w -> logs (run_task t rs w) = logs w)) /\
   (forall t d, procs w !! t = Some (mk_proc d Finished) ->
      tasks w !! d = Some (Some t) /\
      exists w', run_callback t w = Ret w' tt /\ tasks w' !! d = None)).
Proof.
  intros w.
  assert (H0 : reachable (start (set_init_devices [event3] watcher_init)))
    by (apply reach_start; [apply reach_init|reflexivity]).
  assert (H : reachable w) by exact (reach_step (ERemove event3) _ H0).
  split; [exact H|apply (monitor_task_end w H)].
Defined.

(* --------------------------------------------------------------------- *)
(** ** C8: duplicate [add_device] *)
(* --------------------------------------------------------------------- *)

(** C8, counterexample: with [/dev/input/event3] registered but not
    started, [add_device] logs only its info message, no warning. *)
Lemma add_registered_no_warning :
  tasks (set_init_devices [event3] watcher_init) !! event3 = Some None /\
  logs (post (add_device event3 (set_init_devices [event3] watcher_init))) = [Info].
Proof. split; reflexivity. Qed.

Lemma log_set_tasks_id (w : watcher) : set_tasks w (tasks w) = w.
Proof. destruct w; reflexivity. Qed.

(** C8, amended: in every state [main] can reach, [add_device] on a path
    whose entry holds a task logs a warning and changes nothing else; on a
    registered-not-started path it logs no warning: it logs its info
    message and leaves the state otherwise unchanged. *)
Theorem add_device_duplicate (w : watcher) (d : string) :
  reachable w ->
  (forall t, tasks w !! d = Some (Some t) ->
     add_device d w = Ret (log (log w Info) Warning) tt) /\
  (tasks w !! d = Some None -> add_device d w = Ret (log w Info) tt).
Proof.
  intros Hr. destruct (reachable_inv w Hr) as [_ [J K]]. split.
  - intros t Ht. unfold add_device. simpl. rewrite Ht. reflexivity.
  - intros Ht. unfold add_device. simpl. rewrite Ht.
    destruct (started w) eqn:Hs.
    + exfalso. exact (K eq_refl d Ht).
    + simpl. rewrite (insert_id (tasks w) d None Ht).
      change (tasks w) with (tasks (log w Info)). rewrite log_set_tasks_id.
      reflexivity.
Qed.

Lemma add_device_duplicate_witness :
  let w := set_init_devices [event3] watcher_init in
  reachable w /\
  ((forall t, tasks w !! event3 = Some (Some t) ->
      add_device event3 w = Ret (log (log w Info) Warning) tt) /\
   (tasks w !! event3 = Some None -> add_device event3 w = Ret (log w Info) tt)).
Proof.
  intros w. assert (H : reachable w) by apply reach_init.
  split; [exact H|apply (add_device_duplicate w event3 H)].
Defined.

(* --------------------------------------------------------------------- *)
(** ** [stop]: C9 and C10 *)
(* --------------------------------------------------------------------- *)

Lemma cancel_keeps_cancelreq (t t' : nat) (d : string) (w : watcher) :
  procs w !! t' = Some (mk_proc d CancelReq) ->
  procs (cancel t w) !! t' = Some (mk_proc d CancelReq).
Proof.
  intros H. simpl. rewrite lookup_alter.
  destruct (decide (t = t')) as [Heq|]; [subst t|]; rewrite H; reflexivity.
Qed.

Lemma cancel_live (t : nat) (pr : proc) (w : watcher) :
  procs w !! t = Some pr -> pphase pr = Running \/ pphase pr = CancelReq ->
  procs (cancel t w) !! t = Some (mk_proc (ppath pr) CancelReq).
Proof.
  intros H [Hp|Hp]; simpl; rewrite lookup_alter_eq, H; simpl; rewrite Hp; reflexivity.
Qed.

Lemma cancel_all_none (ts : list (option nat)) (w : watcher) :
  None ∈ ts -> exists w', cancel_all ts w = Exc w' AttributeError /\ started w' = started w.
Proof.
  revert w. induction ts as [|o r IH]; intros w Hin.
  - apply not_elem_of_nil in Hin. contradiction.
  - destruct o as [t|]; simpl.
    + apply elem_of_cons in Hin as [Hin|Hin]; [discriminate|].
      destruct (IH (cancel t w) Hin) as [w' [He Hs]]. rewrite He.
      exists w'. split; [reflexivity|exact Hs].
    + exists w. split; reflexivity.
Qed.

Lemma cancel_all_ret (ts : list (option nat)) (w w' : watcher) (ws : list nat) :
  cancel_all ts w = Ret w' ws ->
  started w' = started w /\
  (forall t, Some t ∈ ts -> t ∈ ws) /\
  (forall t d, procs w !! t = Some (mk_proc d CancelReq) ->
     procs w' !! t = Some (mk_proc d CancelReq)) /\
  (forall t pr, procs w !! t = Some pr -> Some t ∈ ts ->
     pphase pr = Running \/ pphase pr = CancelReq ->
     procs w' !! t = Some (mk_proc (ppath pr) CancelReq)).
Proof.
  revert w ws. induction ts as [|o r IH]; intros w ws H; simpl in H.
  - injection H as <- <-. split; [reflexivity|split; [|split]].
    + intros t Hin. apply not_elem_of_nil in Hin. contradiction.
    + intros t d Ht. exact Ht.
    + intros t pr _ Hin. apply not_elem_of_nil in Hin. contradiction.
  - destruct o as [t0|]; [|discriminate].
    destruct (cancel_all r (cancel t0 w)) as [w1 ws1|w1 e] eqn:E; [|discriminate].
    injection H as <- <-.
    destruct (IH _ _ E) as [Hs [Hin [Hkeep Hlive]]].
    split; [exact Hs|split; [|split]].
    + intros t Ht. apply elem_of_cons in Ht as [Ht|Ht].
      * injection Ht as ->. left.
      * right. apply Hin. exact Ht.
    + intros t d Ht. apply Hkeep. apply cancel_keeps_cancelreq. exact Ht.
    + intros t pr Ht Hts Hp. destruct (decide (t0 = t)) as [Heq|Hne].
      * subst t0. apply Hkeep.
        pose proof (cancel_live t pr w Ht Hp) as Hc. exact Hc.
      * apply elem_of_cons in Hts as [Hts|Hts]; [congruence|].
        apply Hlive; [|exact Hts|exact Hp].
        simpl. rewrite lookup_alter_ne; [exact Ht|exact Hne].
Qed.

Lemma cancel_all_exc (ts : list (option nat)) (w w' : watcher) (e : py_exn) :
  cancel_all ts w = Exc w' e ->
  e = AttributeError /\ None ∈ ts /\ started w' = started w.
Proof.
  revert w. induction ts as [|o r IH]; intros w H; simpl in H; [discriminate|].
  destruct o as [t0|].
  - destruct (cancel_all r (cancel t0 w)) as [w1 ws1|w1 e1] eqn:E; [discriminate|].
    injection H as <- <-. destruct (IH _ E) as [He [Hin Hs]].
    split; [exact He|split; [right; exact Hin|exact Hs]].
  - injection H as <- <-. split; [reflexivity|split; [left|reflexivity]].
Qed.

Lemma live_in_values (w : watcher) (t : nat) (pr : proc) :
  sup_inv w -> procs w !! t = Some pr -> pphase pr <> Reaped ->
  Some t ∈ (map_to_list (tasks w)).*2.
Proof.
  intros [[I1 _] _] Ht Hr. apply list_elem_of_fmap.
  exists (ppath pr, Some t). split; [reflexivity|].
  apply elem_of_map_to_list. exact (I1 t pr Ht Hr).
Qed.

(** C9: in every state [main] can reach, [stop] sets [started] to false
    and hands to [gather] every task that is still running or cancelling,
    each of them with its cancellation requested (it finishes the next time
    it is scheduled); hence once [gather] completes no such task is still
    running. [stop] raises only when no task is running at all. *)
Theorem stop_cancels_and_awaits_all (w : watcher) :
  reachable w ->
  match stop w with
  | Ret w1 ws =>
      started w1 = false /\
      (forall t pr, procs w !! t = Some pr ->
         pphase pr = Running \/ pphase pr = CancelReq ->
         t ∈ ws /\ procs w1 !! t = Some (mk_proc (ppath pr) CancelReq) /\
         procs (run_task t [] w1) !! t = Some (mk_proc (ppath pr) Finished)) /\
      (forall w2, gather_done w2 ws -> forall t, live w t -> ~ live w2 t)
  | Exc w1 e => e = AttributeError /\ started w1 = false /\ forall t, ~ live w t
  end.
Proof.
  intros Hr. pose proof (reachable_inv w Hr) as Hinv.
  pose proof Hinv as [[I1 I2] [J K]].
  destruct (stop w) as [w1 ws|w1 e] eqn:E; unfold stop in E.
  - apply cancel_all_ret in E as [Hs [Hin [_ Hlive]]].
    assert (Hcov : forall t pr, procs w !! t = Some pr ->
              pphase pr = Running \/ pphase pr = CancelReq ->
              t ∈ ws /\ procs w1 !! t = Some (mk_proc (ppath pr) CancelReq)).
    { intros t pr Ht Hp.
      assert (Hv : Some t ∈ (map_to_list (tasks w)).*2).
      { apply (live_in_values w t pr Hinv Ht). destruct Hp as [Hp|Hp]; rewrite Hp; discriminate. }
      split; [apply Hin; exact Hv|].
      apply (Hlive t pr Ht Hv Hp). }
    split; [exact Hs|split].
    + intros t pr Ht Hp. destruct (Hcov t pr Ht Hp) as [Hws H1].
      split; [exact Hws|split; [exact H1|]].
      unfold run_task. rewrite H1.
      destruct (decide (t ∈ entered w1)); simpl; rewrite lookup_alter_eq, H1; reflexivity.
    + intros w2 Hg t Hl Hl2. unfold live in Hl.
      destruct (procs w !! t) as [pr|] eqn:Ht; [|contradiction].
      destruct (Hcov t pr Ht Hl) as [Hws _].
      unfold gather_done in Hg. rewrite Forall_forall in Hg. specialize (Hg t Hws).
      unfold task_done in Hg. unfold live in Hl2.
      destruct (procs w2 !! t) as [pr2|]; [|contradiction].
      destruct Hg as [Hg|Hg]; rewrite Hg in Hl2; destruct Hl2; discriminate.
  - apply cancel_all_exc in E as [He [Hn Hs]].
    split; [exact He|split; [exact Hs|]].
    apply list_elem_of_fmap in Hn as [[d o] [Ho Hdo]]. simpl in Ho. subst o.
    apply elem_of_map_to_list in Hdo.
    assert (Hst : started w = false).
    { destruct (started w) eqn:Hsw; [|reflexivity].
      exfalso. exact (K eq_refl d Hdo). }
    intros t Hl. unfold live in Hl.
    destruct (procs w !! t) as [pr|] eqn:Ht; [|contradiction].
    assert (Hr' : pphase pr <> Reaped) by (destruct Hl as [Hp|Hp]; rewrite Hp; discriminate).
    pose proof (I1 t pr Ht Hr') as Hd. specialize (J Hst _ _ Hd). discriminate.
Qed.

Lemma stop_cancels_and_awaits_all_witness :
  let w := start (set_init_devices [event3; "/dev/input/event5"] watcher_init) in
  reachable w /\
  match stop w with
  | Ret w1 ws =>
      started w1 = false /\
      (forall t pr, procs w !! t = Some pr ->
         pphase pr = Running \/ pphase pr = CancelReq ->
         t ∈ ws /\ procs w1 !! t = Some (mk_proc (ppath pr) CancelReq) /\
         procs (run_task t [] w1) !! t = Some (mk_proc (ppath pr) Finished)) /\
      (forall w2, gather_done w2 ws -> forall t, live w t -> ~ live w2 t)
  | Exc w1 e => e = AttributeError /\ started w1 = false /\ forall t, ~ live w t
  end.
Proof.
  intros w.
  assert (H : reachable w) by (apply reach_start; [apply reach_init|reflexivity]).
  split; [exact H|apply (stop_cancels_and_awaits_all w H)].
Defined.

(** C10: if some entry of [tasks] is Python [None] (registered, monitoring
    not started), [stop] raises [AttributeError] from [None.cancel()]
    before reaching [gather], after having set [started] to false. *)
Theorem stop_fails_on_registered (w : watcher) :
  (exists d, tasks w !! d = Some None) ->
  exists w', stop w = Exc w' AttributeError /\ started w' = false.
Proof.
  intros [d Hd]. unfold stop. apply cancel_all_none. simpl.
  apply list_elem_of_fmap. exists (d, None). split; [reflexivity|].
  apply elem_of_map_to_list. exact Hd.
Qed.

Lemma stop_fails_on_registered_witness :
  (exists d, tasks (set_init_devices [event3] watcher_init) !! d = Some None) /\
  exists w', stop (set_init_devices [event3] watcher_init) = Exc w' AttributeError /\
             started w' = false.
Proof.
  assert (H : exists d, tasks (set_init_devices [event3] watcher_init) !! d = Some None)
    by (exists event3; reflexivity).
  split; [exact H|apply (stop_fails_on_registered _ H)].
Defined.

(* --------------------------------------------------------------------- *)
(** ** C7: [remove_device] *)
(* --------------------------------------------------------------------- *)

(** C7: on the running task of [/dev/input/event3], a first
    [remove_device] cancels the task and closes its handle; a second one
    before the task's done callback has run raises [KeyError] at
    [self.devices[device]]. After the callback, a further remove is a
    no-op. *)
Theorem remove_device_twice_keyerror :
  let w0 := start (set_init_devices [event3] watcher_init) in
  let w1 := post (remove_device event3 w0) in
  procs w0 !! 0 = Some (mk_proc event3 Running) /\
  procs w1 !! 0 = Some (mk_proc event3 CancelReq) /\ closed w1 = [0] /\
  tasks w1 !! event3 = Some (Some 0) /\
  match remove_device event3 w1 with Exc _ KeyError => True | _ => False end /\
  (let w2 := post (run_callback 0 (run_task 0 [] w1)) in
   tasks w2 !! event3 = None /\
   remove_device event3 w2 = Ret (log w2 Info) tt).
Proof. vm_compute. repeat split. Qed.

(* --------------------------------------------------------------------- *)
(** ** [GamepadsFinder] *)
(* --------------------------------------------------------------------- *)

Lemma deliver_cases (dev : udev_device) :
  monitor_deliver dev =
  if String.eqb (subsystem dev) "input" then
    if String.eqb (action dev) "add" || String.eqb (action dev) "remove" then
      match properties dev !! "ID_INPUT_JOYSTICK" with
      | None => Ignore
      | Some v =>
          if String.eqb v "1" then
            if String.prefix "event" (sys_name dev) then
              if String.eqb (action dev) "add" then CallAdd (device_node dev)
              else CallRemove (device_node dev)
            else Ignore
          else if String.eqb v "0" then Ignore else RaiseValueError
      end
    else Ignore
  else Ignore.
Proof.
  unfold monitor_deliver, on_new_event, asbool, SUBSYSTEM, SYS_NAME_PREFIX.
  destruct (String.eqb (subsystem dev) "input"); [|reflexivity].
  destruct (String.eqb (action dev) "add" || String.eqb (action dev) "remove");
    [|reflexivity].
  simpl. destruct (properties dev !! "ID_INPUT_JOYSTICK") as [v|]; [|reflexivity].
  destruct (String.eqb v "1"); [|destruct (String.eqb v "0")]; try reflexivity.
  destruct (String.prefix "event" (sys_name dev)); reflexivity.
Qed.

(** The udev callback calls [cb_add] exactly for [add] events of devices
    that the start-up enumeration [list_devices(...)] would list, with
    their device node, and [cb_remove] exactly for [remove] events of such
    devices. *)
Theorem finder_dispatch (dev : udev_device) (p : option string) :
  (monitor_deliver dev = CallAdd p <->
     action dev = "add" /\ list_devices_match dev = true /\ p = device_node dev) /\
  (monitor_deliver dev = CallRemove p <->
     action dev = "remove" /\ list_devices_match dev = true /\ p = device_node dev).
Proof.
  rewrite deliver_cases. unfold list_devices_match, SUBSYSTEM, SYS_NAME_PREFIX.
  destruct (String.eqb_spec (subsystem dev) "input") as [Hs|Hs]; simpl;
    [|split; split; try discriminate; intros [_ [H _]]; discriminate].
  destruct (String.eqb_spec (action dev) "add") as [Ha|Ha];
  destruct (String.eqb_spec (action dev) "remove") as [Hr|Hr]; simpl;
    try (rewrite Ha in Hr; discriminate);
  (destruct (properties dev !! "ID_INPUT_JOYSTICK") as [v|]; simpl;
    [|split; split; try discriminate; intros [_ [H _]]; discriminate]);
  (destruct (String.eqb_spec v "1") as [H1|H1]; simpl;
    [|destruct (String.eqb v "0");
      split; split; try discriminate; intros [_ [H _]]; discriminate]);
  (destruct (String.prefix "event" (sys_name dev)); simpl;
    [|split; split; try discriminate; intros [_ [H _]]; discriminate]);
  split; split;
    try (intros H; injection H as ->; repeat split; assumption);
    try (intros [H [_ ->]]; reflexivity);
    try discriminate;
    try (intros [H _]; congruence).
Qed.

(** A udev event is ignored without error when its action is neither
    [add] nor [remove] (whatever its properties) or when the device has no
    [ID_INPUT_JOYSTICK] property; for an [add] or [remove] event whose
    [ID_INPUT_JOYSTICK] value is neither ['0'] nor ['1'], [asbool] raises
    [ValueError] out of the callback, before the name prefix is checked. *)
Theorem finder_edge_cases (dev : udev_device) :
  (String.eqb (action dev) "add" = false -> String.eqb (action dev) "remove" = false ->
     on_new_event dev = Ignore) /\
  (properties dev !! "ID_INPUT_JOYSTICK" = None -> on_new_event dev = Ignore) /\
  (forall v, properties dev !! "ID_INPUT_JOYSTICK" = Some v ->
     (action dev = "add" \/ action dev = "remove") ->
     v <> "0" -> v <> "1" -> on_new_event dev = RaiseValueError).
Proof.
  unfold on_new_event, asbool. split; [|split].
  - intros Ha Hr. rewrite Ha, Hr. reflexivity.
  - intros Hp. rewrite Hp.
    destruct (String.eqb (action dev) "add" || String.eqb (action dev) "remove");
      reflexivity.
  - intros v Hp Hact H0 H1. rewrite Hp.
    assert (Hb : (String.eqb (action dev) "add" || String.eqb (action dev) "remove") = true).
    { destruct Hact as [H|H]; rewrite H; reflexivity. }
    rewrite Hb. simpl.
    destruct (String.eqb_spec v "1"); [contradiction|].
    destruct (String.eqb_spec v "0"); [contradiction|]. reflexivity.
Qed.

Lemma finder_edge_cases_witness :
  let dev := mk_udev_device "add" "input" {[ "ID_INPUT_JOYSTICK" := "yes" ]}
                            "event3" (Some "/dev/input/event3") in
  on_new_event dev = RaiseValueError.
Proof.
  intros dev. apply (proj2 (proj2 (finder_edge_cases dev)) "yes").
  - reflexivity.
  - left. reflexivity.
  - discriminate.
  - discriminate.
Defined.

(* --------------------------------------------------------------------- *)
(** ** The Bridge over whole runs *)
(* --------------------------------------------------------------------- *)

Lemma bridge_tick_ok_ret (b : bridge) :
  exists b1, bridge_tick true b = Ret b1 tt /\ gamepad_active b1 = false /\
             locked (lock b1) = gamepad_active b.
Proof.
  unfold bridge_tick, get_and_reset_active. simpl.
  destruct (gamepad_active b); simpl.
  - unfold lock_idle. destruct (fd (lock b)) as [n|] eqn:Hf; simpl;
      eexists; (split; [reflexivity|split; [reflexivity|]]);
      unfold locked; simpl; rewrite ?Hf; reflexivity.
  - unfold unlock_idle. destruct (fd (lock b)) as [n|] eqn:Hf; simpl;
      eexists; (split; [reflexivity|split; [reflexivity|]]);
      unfold locked; simpl; rewrite ?Hf; reflexivity.
Qed.

(** As long as logind grants every Inhibit request and no cancellation
    arrives, the Bridge keeps running with at most one inhibitor fd, and
    after its last tick it holds the lock exactly when some monitor set
    the Activity Flag during the window before that tick (a level-triggered
    sampler); before any tick the lock is untouched. *)
Theorem bridge_level_sampler (evs : list loop_ev) (b : bridge) :
  (forall ok, LWake ok ∈ evs -> ok = true) -> LCancel ∉ evs -> lock_inv (lock b) ->
  exists b', inhibit_idle_when_gamepads_active evs b = Sleeping b' /\
    lock_inv (lock b') /\
    match last_sample evs (gamepad_active b) with
    | Some a => locked (lock b') = a
    | None => lock b' = lock b
    end.
Proof.
  revert b. induction evs as [|ev r IH]; intros b Hok Hnc Hinv; simpl.
  - exists b. split; [reflexivity|split; [exact Hinv|reflexivity]].
  - destruct ev as [|ok|].
    + destruct (IH (mk_bridge true (lock b) (calls b))) as [b' [Hrun [Hi Hs]]].
      * intros ok Hin. apply Hok. right. exact Hin.
      * intros Hin. apply Hnc. right. exact Hin.
      * exact Hinv.
      * exists b'. split; [exact Hrun|split; [exact Hi|]]. exact Hs.
    + assert (Ht : ok = true) by (apply Hok; left). subst ok.
      destruct (bridge_tick_ok_ret b) as [b1 [Hb1 [Ha1 Hl1]]].
      pose proof (bridge_tick_inv true b Hinv) as Hinv1. rewrite Hb1 in Hinv1.
      rewrite Hb1.
      destruct (IH b1) as [b' [Hrun [Hi Hs]]].
      * intros ok Hin. apply Hok. right. exact Hin.
      * intros Hin. apply Hnc. right. exact Hin.
      * exact Hinv1.
      * exists b'. split; [exact Hrun|split; [exact Hi|]].
        rewrite Ha1 in Hs. destruct (last_sample r false) as [a|].
        -- exact Hs.
        -- rewrite Hs. exact Hl1.
    + exfalso. apply Hnc. left.
Qed.

Lemma bridge_level_sampler_witness :
  exists b', inhibit_idle_when_gamepads_active [LInput; LWake true; LWake true]
               (bridge_init false) = Sleeping b' /\
    lock_inv (lock b') /\
    match last_sample [LInput; LWake true; LWake true] false with
    | Some a => locked (lock b') = a
    | None => lock b' = lock (bridge_init false)
    end.
Proof.
  apply (bridge_level_sampler [LInput; LWake true; LWake true] (bridge_init false)).
  - intros ok Hin. rewrite !elem_of_cons in Hin.
    destruct Hin as [H|[H|[H|H]]];
      [discriminate|injection H as ->; reflexivity|injection H as ->; reflexivity|
       apply not_elem_of_nil in H; contradiction].
  - intros Hin. rewrite !elem_of_cons in Hin.
    destruct Hin as [H|[H|[H|H]]]; [discriminate|discriminate|discriminate|
       apply not_elem_of_nil in H; contradiction].
  - split; [reflexivity | simpl; discriminate].
Defined.

(* --------------------------------------------------------------------- *)
(** ** [self.devices]: the handle of every running task *)
(* --------------------------------------------------------------------- *)

Definition dev_inv (pc : gmap nat proc) (dv : gmap string nat) : Prop :=
  forall t pr, pc !! t = Some pr -> pphase pr = Running -> dv !! ppath pr = Some t.

Lemma dev_insert_new (d : string) tk pc dv nx :
  core_inv tk pc nx -> no_task_at tk d -> dev_inv pc dv ->
  dev_inv (<[nx := mk_proc d Running]> pc) (<[d := nx]> dv).
Proof.
  intros [I1 _] Hd D t pr Ht Hr. destruct (decide (t = nx)) as [Heq|Hne].
  - subst t. rewrite lookup_insert_eq in Ht. injection Ht as <-. simpl.
    apply lookup_insert_eq.
  - rewrite lookup_insert_ne in Ht; [|congruence].
    assert (Hp : ppath pr <> d).
    { intros Hp. apply (Hd t). rewrite <- Hp. apply (I1 t pr Ht). rewrite Hr. discriminate. }
    rewrite lookup_insert_ne; [exact (D t pr Ht Hr)|congruence].
Qed.

Lemma dev_alter_phase (f : phase -> phase) (t0 : nat) pc dv :
  (forall pr, pc !! t0 = Some pr -> f (pphase pr) = Running -> pphase pr = Running) ->
  dev_inv pc dv ->
  dev_inv (alter (fun pr => mk_proc (ppath pr) (f (pphase pr))) t0 pc) dv.
Proof.
  intros Hf D t pr Ht Hr. rewrite lookup_alter in Ht.
  destruct (decide (t0 = t)) as [Heq|Hne].
  - subst t0. destruct (pc !! t) as [pr0|] eqn:E; simpl in Ht; [|discriminate].
    injection Ht as <-. simpl in Hr |- *. apply (D t pr0 E). exact (Hf pr0 eq_refl Hr).
  - exact (D t pr Ht Hr).
Qed.

Lemma dev_remove (d : string) (t0 : nat) tk pc dv nx :
  core_inv tk pc nx -> tk !! d = Some (Some t0) -> dev_inv pc dv ->
  dev_inv (alter (fun pr => mk_proc (ppath pr) (cancel_phase (pphase pr))) t0 pc)
          (delete d dv).
Proof.
  intros [I1 _] Hd D t pr Ht Hr. rewrite lookup_alter in Ht.
  destruct (decide (t0 = t)) as [Heq|Hne].
  - subst t0. destruct (pc !! t) as [pr0|]; simpl in Ht; [|discriminate].
    injection Ht as <-. simpl in Hr. destruct (pphase pr0); discriminate.
  - assert (Hp : ppath pr <> d).
    { intros Hp. pose proof (I1 t pr Ht) as H. rewrite Hp, Hd in H.
      assert (Hnr : pphase pr <> Reaped) by (rewrite Hr; discriminate).
      specialize (H Hnr). congruence. }
    rewrite lookup_delete_ne; [exact (D t pr Ht Hr)|congruence].
Qed.

Lemma dev_step (e : sup_ev) (w : watcher) :
  sup_inv w -> dev_inv (procs w) (devices w) ->
  dev_inv (procs (post (sup_step e w))) (devices (post (sup_step e w))).
Proof.
  intros [C F] D. destruct e as [d|d|t rs|t]; simpl.
  - unfold add_device. simpl.
    destruct (tasks w !! d) as [[t|]|] eqn:E; [exact D| |];
      (destruct (started w); simpl;
       [apply (dev_insert_new d (tasks w)); [exact C|apply no_task_at_of; auto|exact D]|exact D]).
  - unfold remove_device. simpl.
    destruct (tasks w !! d) as [[t|]|] eqn:E; [|exact D|exact D].
    destruct (devices w !! d); simpl.
    + apply (dev_remove d t (tasks w) _ _ (next_id w)); assumption.
    + apply (dev_alter_phase cancel_phase); [|exact D].
      intros pr _ H. destruct (pphase pr); simpl in H; congruence.
  - unfold run_task.
    destruct (procs w !! t) as [[d ph]|] eqn:Ht; [|exact D].
    destruct ph; try exact D.
    + change (w_active (enter t w)) with (w_active w).
      destruct (read_loop rs (w_active w)) as [a [e|]]; [|exact D].
      destruct (monitor_except (OSError e)); simpl;
        (apply (dev_alter_phase (fun _ => Finished)); [intros; discriminate|exact D]).
    + destruct (decide (t ∈ entered w)); simpl;
        (apply (dev_alter_phase (fun _ => Finished)); [intros; discriminate|exact D]).
  - unfold run_callback.
    destruct (procs w !! t) as [[d ph]|] eqn:Ht; [|exact D].
    destruct ph; try exact D.
    unfold finish_removing_device. simpl.
    destruct (tasks w !! d); simpl;
      (apply (dev_alter_phase (fun _ => Reaped)); [intros; discriminate|exact D]).
Qed.

Lemma create_all_dev (ds : list string) (w : watcher) :
  NoDup ds -> core_inv (tasks w) (procs w) (next_id w) ->
  (forall d, d ∈ ds -> tasks w !! d = Some None) ->
  dev_inv (procs w) (devices w) -> dev_inv (procs (create_all ds w)) (devices (create_all ds w)).
Proof.
  revert w. induction ds as [|d r IH]; intros w Hnd C Hin D; simpl; [exact D|].
  apply NoDup_cons in Hnd as [Hdr Hnd].
  assert (Hd : tasks w !! d = Some None) by (apply Hin; left).
  apply IH; simpl.
  - exact Hnd.
  - apply core_insert_new; [exact C|apply no_task_at_of; auto].
  - intros d' Hd'. rewrite lookup_insert_ne; [apply Hin; right; exact Hd'|].
    intros Heq. subst d'. contradiction.
  - apply (dev_insert_new d (tasks w)); [exact C|apply no_task_at_of; auto|exact D].
Qed.

Lemma set_init_devices_fields (ds : list string) (w : watcher) :
  procs (set_init_devices ds w) = procs w /\ devices (set_init_devices ds w) = devices w /\
  started (set_init_devices ds w) = started w.
Proof.
  revert w. induction ds as [|d r IH]; intros w; simpl; [auto|].
  destruct (IH (set_tasks w (<[d := None]> (tasks w)))) as [H1 [H2 H3]].
  rewrite H1, H2, H3. auto.
Qed.

Lemma reachable_dev (w : watcher) : reachable w -> dev_inv (procs w) (devices w).
Proof.
  induction 1 as [ds|e w Hr IH|w Hr IH Hs].
  - destruct (set_init_devices_fields ds watcher_init) as [H1 [H2 _]].
    rewrite H1, H2. intros t pr Ht. simpl in Ht. rewrite lookup_empty in Ht. discriminate.
  - apply dev_step; [apply reachable_inv; exact Hr|exact IH].
  - destruct (reachable_inv w Hr) as [C [J _]].
    unfold start. apply create_all_dev; simpl.
    + apply NoDup_fst_map_to_list.
    + exact C.
    + intros d Hd. apply list_elem_of_fmap in Hd as [[d' o] [Heq Ho]].
      simpl in Heq. subst d'. apply elem_of_map_to_list in Ho.
      rewrite (J Hs d o Ho) in Ho. exact Ho.
    + exact IH.
Qed.

(* --------------------------------------------------------------------- *)
(** ** [start] and the start-up of [main] *)
(* --------------------------------------------------------------------- *)

Lemma create_all_keeps (ds : list string) (w : watcher) :
  started (create_all ds w) = started w /\
  next_id w <= next_id (create_all ds w) /\
  (forall d, d ∉ ds -> tasks (create_all ds w) !! d = tasks w !! d /\
                       devices (create_all ds w) !! d = devices w !! d) /\
  (forall t, t < next_id w -> procs (create_all ds w) !! t = procs w !! t).
Proof.
  revert w. induction ds as [|d0 r IH]; intros w; simpl.
  - split; [reflexivity|split; [lia|split; intros; [split|]; reflexivity]].
  - destruct (IH (create_monitor_task d0 (log w Info))) as [Hs [Hn [Hk Hp]]].
    simpl in Hs, Hn. split; [exact Hs|split; [lia|split]].
    + intros d Hd. rewrite elem_of_cons in Hd.
      assert (Hne : d <> d0) by tauto. assert (Hr : d ∉ r) by tauto.
      destruct (Hk d Hr) as [H1 H2]. rewrite H1, H2. simpl.
      rewrite !lookup_insert_ne by congruence. split; reflexivity.
    + intros t Ht. rewrite Hp by (simpl; lia). simpl.
      rewrite lookup_insert_ne by lia. reflexivity.
Qed.

Lemma create_all_running (ds : list string) (w : watcher) :
  NoDup ds ->
  forall d, d ∈ ds -> exists t,
    tasks (create_all ds w) !! d = Some (Some t) /\
    procs (create_all ds w) !! t = Some (mk_proc d Running) /\
    devices (create_all ds w) !! d = Some t.
Proof.
  revert w. induction ds as [|d0 r IH]; intros w Hnd d Hd.
  - apply not_elem_of_nil in Hd. contradiction.
  - apply NoDup_cons in Hnd as [Hdr Hnd]. simpl.
    destruct (decide (d = d0)) as [Heq|Hne].
    + subst d. exists (next_id w).
      destruct (create_all_keeps r (create_monitor_task d0 (log w Info)))
        as [_ [_ [Hk Hp]]].
      destruct (Hk d0 Hdr) as [H1 H2]. rewrite H1, H2, Hp by (simpl; lia). simpl.
      rewrite !lookup_insert_eq. split; [reflexivity|split; reflexivity].
    + apply elem_of_cons in Hd as [Hd|Hd]; [contradiction|].
      apply (IH _ Hnd d Hd).
Qed.

Lemma set_init_devices_tasks (ds : list string) (w : watcher) (d : string) :
  tasks (set_init_devices ds w) !! d =
  if decide (d ∈ ds) then Some None else tasks w !! d.
Proof.
  revert w. induction ds as [|d0 r IH]; intros w; simpl.
  - destruct (decide (d ∈ [])) as [H|_]; [apply not_elem_of_nil in H; contradiction|reflexivity].
  - rewrite IH. simpl.
    destruct (decide (d ∈ r)) as [Hr|Hr];
    destruct (decide (d ∈ d0 :: r)) as [Hc|Hc]; try reflexivity.
    + exfalso. apply Hc. right. exact Hr.
    + apply elem_of_cons in Hc as [->|Hc]; [apply lookup_insert_eq|contradiction].
    + rewrite lookup_insert_ne; [reflexivity|]. intros ->. apply Hc. left.
Qed.

Lemma start_spec (w : watcher) :
  started (start w) = true /\
  (forall d, is_Some (tasks (start w) !! d) <-> is_Some (tasks w !! d)) /\
  (forall d, is_Some (tasks w !! d) -> exists t,
     tasks (start w) !! d = Some (Some t) /\
     procs (start w) !! t = Some (mk_proc d Running) /\
     devices (start w) !! d = Some t).
Proof.
  unfold start.
  set (ks := (map_to_list (tasks (set_started w true))).*1).
  assert (Hks : forall d, d ∈ ks <-> is_Some (tasks w !! d)).
  { intros d. unfold ks. rewrite list_elem_of_fmap. split.
    - intros [[d' o] [Heq Ho]]. simpl in Heq. subst d'.
      apply elem_of_map_to_list in Ho. exists o. exact Ho.
    - intros [o Ho]. exists (d, o). split; [reflexivity|].
      apply elem_of_map_to_list. exact Ho. }
  assert (Hnd : NoDup ks) by apply NoDup_fst_map_to_list.
  destruct (create_all_keeps ks (set_started w true)) as [Hs [_ [Hk _]]].
  split; [exact Hs|split].
  - intros d. split.
    + intros Hd. destruct (decide (d ∈ ks)) as [Hin|Hnin]; [apply Hks; exact Hin|].
      destruct (Hk d Hnin) as [H1 _]. rewrite H1 in Hd. exact Hd.
    + intros Hd. apply Hks in Hd.
      destruct (create_all_running ks (set_started w true) Hnd d Hd) as [t [Ht _]].
      rewrite Ht. eexists; reflexivity.
  - intros d Hd. apply Hks in Hd.
    exact (create_all_running ks (set_started w true) Hnd d Hd).
Qed.

(** [GamepadsWatcher.start] sets [started], keeps the set of tracked paths,
    and leaves every tracked path with its own running task, whose evdev
    handle is stored under the same path in [self.devices]. *)
Theorem start_monitors_every_key (w : watcher) :
  started (start w) = true /\
  (forall d, is_Some (tasks (start w) !! d) <-> is_Some (tasks w !! d)) /\
  (forall d, is_Some (tasks w !! d) -> exists t,
     tasks (start w) !! d = Some (Some t) /\
     procs (start w) !! t = Some (mk_proc d Running) /\
     devices (start w) !! d = Some t).
Proof. exact (start_spec w). Qed.

Lemma start_monitors_every_key_witness :
  exists t,
    tasks (start (set_init_devices [event3] watcher_init)) !! event3 = Some (Some t) /\
    procs (start (set_init_devices [event3] watcher_init)) !! t = Some (mk_proc event3 Running) /\
    devices (start (set_init_devices [event3] watcher_init)) !! event3 = Some t.
Proof.
  apply (proj2 (proj2 (start_monitors_every_key (set_init_devices [event3] watcher_init)))).
  exists None. reflexivity.
Defined.

(** After the start-up of [main] with the discovered paths [ds], the
    watcher is started, every discovered path has a running task with its
    handle, and no other path is tracked. *)
Theorem main_startup_tasks (ds : list string) :
  started (main_startup ds) = true /\
  (forall d, d ∈ ds -> exists t,
     tasks (main_startup ds) !! d = Some (Some t) /\
     procs (main_startup ds) !! t = Some (mk_proc d Running) /\
     devices (main_startup ds) !! d = Some t) /\
  (forall d, d ∉ ds -> tasks (main_startup ds) !! d = None).
Proof.
  unfold main_startup.
  destruct (start_spec (set_init_devices ds watcher_init)) as [Hs [Hdom Hrun]].
  split; [exact Hs|split].
  - intros d Hd. apply Hrun. rewrite set_init_devices_tasks.
    destruct (decide (d ∈ ds)); [eexists; reflexivity|contradiction].
  - intros d Hd. destruct (tasks (start (set_init_devices ds watcher_init)) !! d) eqn:E;
      [|reflexivity].
    exfalso. assert (H : is_Some (tasks (set_init_devices ds watcher_init) !! d)).
    { apply Hdom. rewrite E. eexists; reflexivity. }
    rewrite set_init_devices_tasks in H.
    destruct (decide (d ∈ ds)); [contradiction|].
    simpl in H. rewrite lookup_empty in H. destruct H as [? H]; discriminate.
Qed.

Lemma main_startup_tasks_witness :
  (exists t,
     tasks (main_startup [event3]) !! event3 = Some (Some t) /\
     procs (main_startup [event3]) !! t = Some (mk_proc event3 Running) /\
     devices (main_startup [event3]) !! event3 = Some t) /\
  tasks (main_startup [event3]) !! "/dev/input/event4" = None.
Proof.
  split.
  - apply (proj1 (proj2 (main_startup_tasks [event3]))). left.
  - apply (proj2 (proj2 (main_startup_tasks [event3]))).
    intros H. apply elem_of_cons in H as [H|H]; [discriminate|].
    apply not_elem_of_nil in H. exact H.
Defined.

(* --------------------------------------------------------------------- *)
(** ** Removing a running device *)
(* --------------------------------------------------------------------- *)

Lemma remove_running_spec (w : watcher) (d : string) (t : nat) :
  reachable w -> procs w !! t = Some (mk_proc d Running) ->
  tasks w !! d = Some (Some t) /\
  remove_device d w =
    Ret (set_devices (close_handle (cancel t (log w Info)) t) (delete d (devices w))) tt.
Proof.
  intros Hr Ht. destruct (reachable_inv w Hr) as [[I1 _] _].
  assert (Hd : tasks w !! d = Some (Some t)) by (apply (I1 t _ Ht); discriminate).
  assert (Hv : devices w !! d = Some t) by (apply (reachable_dev w Hr t _ Ht); reflexivity).
  split; [exact Hd|]. unfold remove_device. simpl. rewrite Hd. simpl. rewrite Hv. reflexivity.
Qed.

Lemma finish_after_cancel (w1 : watcher) (d : string) (t : nat) (rs : list read_result) :
  procs w1 !! t = Some (mk_proc d CancelReq) -> tasks w1 !! d = Some (Some t) ->
  procs (run_task t rs w1) !! t = Some (mk_proc d Finished) /\
  exists w3, run_callback t (run_task t rs w1) = Ret w3 tt /\ tasks w3 !! d = None /\
             procs w3 !! t = Some (mk_proc d Reaped).
Proof.
  intros Hp Hd.
  assert (Hf : procs (run_task t rs w1) !! t = Some (mk_proc d Finished)).
  { unfold run_task. rewrite Hp.
    destruct (decide (t ∈ entered w1)); simpl; rewrite lookup_alter_eq, Hp; reflexivity. }
  split; [exact Hf|].
  unfold run_callback. rewrite Hf. unfold finish_removing_device. simpl.
  assert (Ht : tasks (run_task t rs w1) !! d = Some (Some t)).
  { unfold run_task. rewrite Hp. destruct (decide (t ∈ entered w1)); exact Hd. }
  rewrite Ht. eexists. split; [reflexivity|]. simpl.
  split; [apply lookup_delete_eq|]. rewrite lookup_alter_eq, Hf. reflexivity.
Qed.

(** In every state [main] can reach, [remove_device] on the path of a
    running task never raises: it requests the task's cancellation, closes
    the task's own evdev handle and drops it from [self.devices], but keeps
    the entry in [self.tasks]; once the task is scheduled it finishes, and
    its done callback then removes the entry. *)
Theorem remove_running_device (w : watcher) (d : string) (t : nat) (rs : list read_result) :
  reachable w -> procs w !! t = Some (mk_proc d Running) ->
  exists w1, remove_device d w = Ret w1 tt /\
    procs w1 !! t = Some (mk_proc d CancelReq) /\ closed w1 = closed w ++ [t] /\
    devices w1 !! d = None /\ tasks w1 !! d = Some (Some t) /\
    procs (run_task t rs w1) !! t = Some (mk_proc d Finished) /\
    exists w3, run_callback t (run_task t rs w1) = Ret w3 tt /\ tasks w3 !! d = None.
Proof.
  intros Hr Ht. destruct (remove_running_spec w d t Hr Ht) as [Hd Hrem].
  rewrite Hrem. eexists. split; [reflexivity|].
  assert (Hc : procs (set_devices (close_handle (cancel t (log w Info)) t)
                   (delete d (devices w))) !! t = Some (mk_proc d CancelReq)).
  { simpl. rewrite lookup_alter_eq, Ht. reflexivity. }
  destruct (finish_after_cancel _ d t rs Hc Hd) as [Hf [w3 [Hcb [Hn _]]]].
  split; [exact Hc|split; [reflexivity|split; [apply lookup_delete_eq|]]].
  split; [exact Hd|split; [exact Hf|]]. exists w3. split; assumption.
Qed.

Lemma remove_running_device_witness :
  exists w1, remove_device event3 (main_startup [event3]) = Ret w1 tt /\
    procs w1 !! 0 = Some (mk_proc event3 CancelReq) /\
    closed w1 = closed (main_startup [event3]) ++ [0] /\
    devices w1 !! event3 = None /\ tasks w1 !! event3 = Some (Some 0) /\
    procs (run_task 0 [] w1) !! 0 = Some (mk_proc event3 Finished) /\
    exists w3, run_callback 0 (run_task 0 [] w1) = Ret w3 tt /\ tasks w3 !! event3 = None.
Proof.
  apply (remove_running_device (main_startup [event3]) event3 0 []).
  - apply reach_start; [apply reach_init|reflexivity].
  - reflexivity.
Defined.

(** In every state [main] can reach, a device that is re-plugged while the
    task of its removal is still pending is lost: the [add_device] sees the
    old task, only warns and creates no task, and once the old task
    finishes and its callback runs, the path is untracked and no running
    task monitors it. *)
Theorem readd_while_stopping_lost (w : watcher) (d : string) (t : nat) (rs : list read_result) :
  reachable w -> procs w !! t = Some (mk_proc d Running) ->
  exists w1, remove_device d w = Ret w1 tt /\
    add_device d w1 = Ret (log (log w1 Info) Warning) tt /\
    exists w3, run_callback t (run_task t rs (log (log w1 Info) Warning)) = Ret w3 tt /\
      tasks w3 !! d = None /\
      forall t' pr', procs w3 !! t' = Some pr' -> ppath pr' = d -> pphase pr' <> Running.
Proof.
  intros Hr Ht. destruct (remove_running_spec w d t Hr Ht) as [Hd Hrem].
  set (w1 := set_devices (close_handle (cancel t (log w Info)) t) (delete d (devices w))).
  exists w1. split; [exact Hrem|].
  assert (Hadd : add_device d w1 = Ret (log (log w1 Info) Warning) tt).
  { unfold add_device. simpl. rewrite Hd. reflexivity. }
  split; [exact Hadd|].
  set (w2 := log (log w1 Info) Warning).
  assert (Hc : procs w2 !! t = Some (mk_proc d CancelReq)).
  { simpl. rewrite lookup_alter_eq, Ht. reflexivity. }
  assert (Hd2 : tasks w2 !! d = Some (Some t)) by exact Hd.
  destruct (finish_after_cancel w2 d t rs Hc Hd2) as [_ [w3 [Hcb [Hn _]]]].
  exists w3. split; [exact Hcb|split; [exact Hn|]].
  assert (Hr3 : reachable w3).
  { assert (E3 : w3 = post (sup_step (ECallback t)
                   (post (sup_step (ERun t rs) (post (sup_step (EAdd d)
                     (post (sup_step (ERemove d) w)))))))).
    { simpl. rewrite Hrem. simpl. fold w1. rewrite Hadd. simpl. fold w2.
      rewrite Hcb. reflexivity. }
    rewrite E3. repeat apply reach_step. exact Hr. }
  destruct (reachable_inv w3 Hr3) as [[I1 _] _].
  intros t' pr' Hp' Hpath Hrun.
  pose proof (I1 t' pr' Hp') as H. rewrite Hpath, Hn in H.
  assert (Hne : pphase pr' <> Reaped) by (rewrite Hrun; discriminate).
  specialize (H Hne). discriminate H.
Qed.

Lemma readd_while_stopping_lost_witness :
  exists w1, remove_device event3 (main_startup [event3]) = Ret w1 tt /\
    add_device event3 w1 = Ret (log (log w1 Info) Warning) tt /\
    exists w3, run_callback 0 (run_task 0 [] (log (log w1 Info) Warning)) = Ret w3 tt /\
      tasks w3 !! event3 = None /\
      forall t' pr', procs w3 !! t' = Some pr' -> ppath pr' = event3 -> pphase pr' <> Running.
Proof.
  apply (readd_while_stopping_lost (main_startup [event3]) event3 0 []).
  - apply reach_start; [apply reach_init|reflexivity].
  - reflexivity.
Defined.

(** Once [watcher.start()] has run, [stop] never raises: this is the
    order [main] uses, so its shutdown reaches [gather]. *)
Theorem stop_after_start_returns (w : watcher) :
  reachable w -> started w = true -> exists w1 ws, stop w = Ret w1 ws.
Proof.
  intros Hr Hs. destruct (reachable_inv w Hr) as [_ [_ K]].
  destruct (stop w) as [w1 ws|w1 e] eqn:E; [exists w1, ws; reflexivity|].
  exfalso. unfold stop in E. apply cancel_all_exc in E as [_ [Hn _]].
  apply list_elem_of_fmap in Hn as [[d o] [Ho Hdo]]. simpl in Ho. subst o.
  apply elem_of_map_to_list in Hdo. exact (K Hs d Hdo).
Qed.

Lemma stop_after_start_returns_witness :
  exists w1 ws, stop (main_startup [event3; "/dev/input/event5"]) = Ret w1 ws.
Proof.
  apply stop_after_start_returns.
  - apply reach_start; [apply reach_init|reflexivity].
  - reflexivity.
Defined.

(* --------------------------------------------------------------------- *)
(** ** Hot-plug before and after [start] *)
(* --------------------------------------------------------------------- *)

Lemma add_device_io_ok (d : string) (w : watcher) :
  add_device_io None d w = add_device d w.
Proof.
  unfold add_device_io, add_device. simpl.
  destruct (tasks w !! d) as [[t|]|]; [reflexivity| |];
    destruct (started w); reflexivity.
Qed.

(** After [start], plugging in a gamepad whose path is untracked makes
    [add_device] either return normally with a new running task for that
    path, when [evdev.InputDevice] opens the node -- its id was never used
    by an earlier task, its evdev handle is recorded in [self.devices], and
    the entries of the other paths are unchanged -- or, when the open
    raises [OSError], raise it after the info log only, leaving the path
    untracked and creating no task. *)
Theorem add_after_start_monitors (w : watcher) (d : string) :
  reachable w -> started w = true -> tasks w !! d = None ->
  (exists w1 t, add_device_io None d w = Ret w1 tt /\
    procs w !! t = None /\
    tasks w1 !! d = Some (Some t) /\ procs w1 !! t = Some (mk_proc d Running) /\
    devices w1 !! d = Some t /\
    (forall d', d' <> d -> tasks w1 !! d' = tasks w !! d')) /\
  (forall e, add_device_io (Some e) d w = Exc (log w Info) (OSError e)).
Proof.
  intros Hr Hs Hd. destruct (reachable_inv w Hr) as [[_ [_ I3]] _].
  split.
  - rewrite add_device_io_ok. unfold add_device. simpl. rewrite Hd, Hs. simpl.
    eexists _, (next_id w). split; [reflexivity|].
    split; [apply I3; lia|]. simpl.
    split; [apply lookup_insert_eq|split; [apply lookup_insert_eq|]].
    split; [apply lookup_insert_eq|].
    intros d' Hne. apply lookup_insert_ne. congruence.
  - intros e. unfold add_device_io. simpl. rewrite Hd, Hs. reflexivity.
Qed.

Lemma add_after_start_monitors_witness :
  (exists w1 t, add_device_io None "/dev/input/event4" (main_startup [event3]) = Ret w1 tt /\
    procs (main_startup [event3]) !! t = None /\
    tasks w1 !! "/dev/input/event4" = Some (Some t) /\
    procs w1 !! t = Some (mk_proc "/dev/input/event4" Running) /\
    devices w1 !! "/dev/input/event4" = Some t /\
    (forall d', d' <> "/dev/input/event4" ->
       tasks w1 !! d' = tasks (main_startup [event3]) !! d')) /\
  (forall e, add_device_io (Some e) "/dev/input/event4" (main_startup [event3])
             = Exc (log (main_startup [event3]) Info) (OSError e)).
Proof.
  apply add_after_start_monitors.
  - apply reach_start; [apply reach_init|reflexivity].
  - reflexivity.
  - reflexivity.
Defined.

(** Before [start], a gamepad plugged in and removed again leaves no trace
    in the supervisor: both calls return normally, no task is created and
    no handle is opened or closed, and [self.tasks] is the original map
    without the path. *)
Theorem hotplug_before_start_roundtrip (w : watcher) (d : string) :
  reachable w -> started w = false ->
  exists w1 w2, add_device d w = Ret w1 tt /\ remove_device d w1 = Ret w2 tt /\
    tasks w2 = delete d (tasks w) /\ procs w2 = procs w /\
    devices w2 = devices w /\ closed w2 = closed w /\ next_id w2 = next_id w.
Proof.
  intros Hr Hs. destruct (reachable_inv w Hr) as [_ [J _]].
  assert (Hadd : add_device d w =
                 Ret (set_tasks (log w Info) (<[d := None]> (tasks w))) tt).
  { unfold add_device. simpl. rewrite Hs. simpl.
    destruct (tasks w !! d) as [o|] eqn:Ho; [|reflexivity].
    rewrite (J Hs d o Ho). reflexivity. }
  rewrite Hadd. exists (set_tasks (log w Info) (<[d := None]> (tasks w))).
  unfold remove_device. cbn [tasks set_tasks log]. rewrite lookup_insert_eq.
  eexists. split; [reflexivity|split; [reflexivity|]]. simpl.
  split; [apply delete_insert_eq|]. repeat split.
Qed.

Lemma hotplug_before_start_roundtrip_witness :
  exists w1 w2, add_device "/dev/input/event4" (set_init_devices [event3] watcher_init)
                  = Ret w1 tt /\
    remove_device "/dev/input/event4" w1 = Ret w2 tt /\
    tasks w2 = delete "/dev/input/event4" (tasks (set_init_devices [event3] watcher_init)) /\
    procs w2 = procs (set_init_devices [event3] watcher_init) /\
    devices w2 = devices (set_init_devices [event3] watcher_init) /\
    closed w2 = closed (set_init_devices [event3] watcher_init) /\
    next_id w2 = next_id (set_init_devices [event3] watcher_init).
Proof.
  apply hotplug_before_start_roundtrip.
  - apply reach_init.
  - reflexivity.
Defined.

(* --------------------------------------------------------------------- *)
(** ** evdev handles: opened once, closed at most once *)
(* --------------------------------------------------------------------- *)

(** The handles in [self.devices] and the closed ones: no handle closed
    twice, an open handle is not closed and belongs to one path, and
    every handle was created before [next_id]. *)
Definition hnd_inv (dv : gmap string nat) (cl : list nat) (nx : nat) : Prop :=
  NoDup cl /\
  (forall d h, dv !! d = Some h -> (h ∉ cl) /\ h < nx) /\
  (forall h, h ∈ cl -> h < nx) /\
  (forall d d' h, dv !! d = Some h -> dv !! d' = Some h -> d = d').

Definition hnd_of (w : watcher) : Prop := hnd_inv (devices w) (closed w) (next_id w).

Lemma hnd_open (d : string) dv cl nx :
  hnd_inv dv cl nx -> hnd_inv (<[d := nx]> dv) cl (S nx).
Proof.
  intros [H1 [H2 [H3 H4]]]. split; [exact H1|split; [|split]].
  - intros d' h Hh. destruct (decide (d' = d)) as [->|Hne].
    + rewrite lookup_insert_eq in Hh. injection Hh as <-.
      split; [|lia]. intros Hc. specialize (H3 _ Hc). lia.
    + rewrite lookup_insert_ne in Hh; [|congruence].
      destruct (H2 _ _ Hh). split; [assumption|lia].
  - intros h Hh. specialize (H3 _ Hh). lia.
  - intros d1 d2 h E1 E2.
    destruct (decide (d1 = d)) as [->|N1]; destruct (decide (d2 = d)) as [->|N2];
      [reflexivity| | |].
    + rewrite lookup_insert_eq in E1. rewrite lookup_insert_ne in E2; [|congruence].
      injection E1 as <-. destruct (H2 _ _ E2). lia.
    + rewrite lookup_insert_eq in E2. rewrite lookup_insert_ne in E1; [|congruence].
      injection E2 as <-. destruct (H2 _ _ E1). lia.
    + rewrite lookup_insert_ne in E1, E2; try congruence. exact (H4 _ _ _ E1 E2).
Qed.

Lemma hnd_close (d : string) (h : nat) dv cl nx :
  hnd_inv dv cl nx -> dv !! d = Some h -> hnd_inv (delete d dv) (cl ++ [h]) nx.
Proof.
  intros [H1 [H2 [H3 H4]]] Hd. destruct (H2 _ _ Hd) as [Hn Hlt].
  split; [|split; [|split]].
  - apply NoDup_app. split; [exact H1|split; [|apply NoDup_singleton]].
    intros x Hx Hx'. apply list_elem_of_singleton in Hx'. subst x. contradiction.
  - intros d' h' Hh'. destruct (decide (d' = d)) as [->|Hne].
    + rewrite lookup_delete_eq in Hh'. discriminate.
    + rewrite lookup_delete_ne in Hh'; [|congruence].
      destruct (H2 _ _ Hh') as [Hn' Hl']. split; [|exact Hl'].
      intros Hc. apply elem_of_app in Hc as [Hc|Hc]; [contradiction|].
      apply list_elem_of_singleton in Hc. subst h'. exact (Hne (H4 _ _ _ Hh' Hd)).
  - intros x Hx. apply elem_of_app in Hx as [Hx|Hx]; [exact (H3 _ Hx)|].
    apply list_elem_of_singleton in Hx. subst x. exact Hlt.
  - intros d1 d2 h' E1 E2.
    destruct (decide (d1 = d)) as [->|N1]; [rewrite lookup_delete_eq in E1; discriminate|].
    destruct (decide (d2 = d)) as [->|N2]; [rewrite lookup_delete_eq in E2; discriminate|].
    rewrite lookup_delete_ne in E1, E2; try congruence. exact (H4 _ _ _ E1 E2).
Qed.

Lemma hnd_step (e : sup_ev) (w : watcher) :
  hnd_of w -> hnd_of (post (sup_step e w)).
Proof.
  unfold hnd_of. intros H. destruct e as [d|d|t rs|t]; simpl.
  - unfold add_device. simpl.
    destruct (tasks w !! d) as [[t|]|]; [exact H| |];
      (destruct (started w); simpl; [apply hnd_open; exact H|exact H]).
  - unfold remove_device. simpl.
    destruct (tasks w !! d) as [[t|]|]; [|exact H|exact H].
    destruct (devices w !! d) as [h|] eqn:Ed; simpl; [|exact H].
    apply hnd_close; assumption.
  - unfold run_task.
    destruct (procs w !! t) as [[d ph]|]; [|exact H].
    destruct ph; try exact H.
    + change (w_active (enter t w)) with (w_active w).
      destruct (read_loop rs (w_active w)) as [a [e|]]; [|exact H].
      destruct (monitor_except (OSError e)); exact H.
    + destruct (decide (t ∈ entered w)); exact H.
  - unfold run_callback.
    destruct (procs w !! t) as [[d ph]|]; [|exact H].
    destruct ph; try exact H.
    unfold finish_removing_device. simpl.
    destruct (tasks w !! d); exact H.
Qed.

Lemma create_all_hnd (ds : list string) (w : watcher) :
  hnd_of w -> hnd_of (create_all ds w).
Proof.
  revert w. induction ds as [|d r IH]; intros w H; simpl; [exact H|].
  apply IH. unfold hnd_of. simpl. apply hnd_open. exact H.
Qed.

Lemma set_init_devices_handles (ds : list string) (w : watcher) :
  devices (set_init_devices ds w) = devices w /\ closed (set_init_devices ds w) = closed w /\
  next_id (set_init_devices ds w) = next_id w.
Proof.
  revert w. induction ds as [|d r IH]; intros w; simpl; [auto|].
  destruct (IH (set_tasks w (<[d := None]> (tasks w)))) as [H1 [H2 H3]].
  rewrite H1, H2, H3. auto.
Qed.

Lemma reachable_sup_run (evs : list sup_ev) (w : watcher) :
  reachable w -> reachable (sup_run evs w).
Proof.
  revert w. induction evs as [|e r IH]; intros w Hr; simpl; [exact Hr|].
  apply IH. apply reach_step. exact Hr.
Qed.

Lemma reachable_hnd (w : watcher) : reachable w -> hnd_of w.
Proof.
  induction 1 as [ds|e w Hr IH|w Hr IH Hs].
  - destruct (set_init_devices_handles ds watcher_init) as [H1 [H2 H3]].
    unfold hnd_of. rewrite H1, H2, H3. simpl.
    split; [constructor|split; [|split]].
    + intros d h Hh. rewrite lookup_empty in Hh. discriminate.
    + intros h Hh. apply not_elem_of_nil in Hh. contradiction.
    + intros d d' h Hh. rewrite lookup_empty in Hh. discriminate.
  - apply hnd_step. exact IH.
  - unfold start. apply create_all_hnd. exact IH.
Qed.

(** In every state [main] can reach, no evdev handle has been closed twice,
    and no handle still in [self.devices] has been closed: the
    [self.devices[device].close()] of [remove_device] always closes an
    open handle, and two paths never share one. *)
Theorem handles_closed_once (w : watcher) :
  reachable w ->
  NoDup (closed w) /\
  (forall d h, devices w !! d = Some h -> h ∉ closed w) /\
  (forall d d' h, devices w !! d = Some h -> devices w !! d' = Some h -> d = d').
Proof.
  intros Hr. destruct (reachable_hnd w Hr) as [H1 [H2 [_ H4]]].
  split; [exact H1|split; [|exact H4]].
  intros d h Hh. exact (proj1 (H2 _ _ Hh)).
Qed.

Lemma handles_closed_once_witness :
  let w := sup_run [ERemove event3; EAdd event3; ERun 0 []; ECallback 0; EAdd event3;
                    ERemove event3] (main_startup [event3]) in
  NoDup (closed w) /\
  (forall d h, devices w !! d = Some h -> h ∉ closed w) /\
  (forall d d' h, devices w !! d = Some h -> devices w !! d' = Some h -> d = d').
Proof.
  apply handles_closed_once. apply reachable_sup_run.
  apply reach_start; [apply reach_init|reflexivity].
Defined.
